(** * packit-service: event dispatch and status reporting

    A shallow embedding of [packit_service/worker/jobs.py] and
    [packit_service/worker/reporting.py], together with the properties of
    the dispatcher, the comment command parser and the status reporter
    that the specification states about them. *)

From Stdlib Require Import ZArith Ascii String List Bool Lia.
From stdpp Require Import base decidable option list gmap sets strings.

Local Open Scope Z_scope.
Local Open Scope string_scope.
Local Open Scope list_scope.

(** ** Python [str] operations used by the sources

    A [str] is modelled as a [string] whose characters are the code points
    below 256.  [isspace] is [str.isspace] on that range: TAB..CR,
    FS..US, SPACE, NEL (0x85) and NBSP (0xA0). *)
Module PyStr.

Definition isspace (c : ascii) : bool :=
  let n := N_of_ascii c in
  ((9 <=? n) && (n <=? 13) || (28 <=? n) && (n <=? 32)
   || (n =? 133) || (n =? 160))%N.

(** The line feed. *)
Definition LF : string := String (ascii_of_nat 10) EmptyString.

(** [s.lstrip()] *)
Fixpoint lstrip (s : string) : string :=
  match s with
  | String c s' => if isspace c then lstrip s' else s
  | EmptyString => EmptyString
  end.

(** [s.rstrip()] *)
Fixpoint rstrip (s : string) : string :=
  match s with
  | String c s' =>
      match rstrip s' with
      | EmptyString => if isspace c then EmptyString else String c EmptyString
      | r => String c r
      end
  | EmptyString => EmptyString
  end.

(** [s.strip()] *)
Definition strip (s : string) : string := rstrip (lstrip s).

(** [s.startswith(p)] *)
Fixpoint startswith (p s : string) : bool :=
  match p, s with
  | EmptyString, _ => true
  | String a p', String b s' => Ascii.eqb a b && startswith p' s'
  | String _ _, EmptyString => false
  end.

(** Index of the first occurrence of [sub] in [s], counted from [i]. *)
Fixpoint find_from (sub s : string) (i : Z) : Z :=
  if startswith sub s then i
  else match s with
       | String _ s' => find_from sub s' (i + 1)
       | EmptyString => -1
       end.

(** [s.find(sub)]: the lowest index of [sub] in [s], or [-1]. *)
Definition find (s sub : string) : Z := find_from sub s 0.

Fixpoint drop (n : nat) (s : string) : string :=
  match n, s with
  | O, _ => s
  | S n', String _ s' => drop n' s'
  | S _, EmptyString => EmptyString
  end.

(** [s[i:]], a negative [i] counting from the end. *)
Definition slice_from (s : string) (i : Z) : string :=
  if (i <? 0)%Z
  then drop (Z.to_nat (Z.max 0 (Z.of_nat (String.length s) + i))) s
  else drop (Z.to_nat i) s.

(** The maximal prefix without whitespace, and what follows it. *)
Fixpoint span_word (s : string) : string * string :=
  match s with
  | String c s' =>
      if isspace c then (EmptyString, s)
      else let (w, r) := span_word s' in (String c w, r)
  | EmptyString => (EmptyString, EmptyString)
  end.

(** [s.split(maxsplit=n)] with no separator: runs of whitespace separate
    the words, at most [n] splits are made, and what is left after the
    last split is kept as one piece, its leading whitespace removed. *)
Fixpoint split (maxsplit : nat) (s : string) : list string :=
  match lstrip s with
  | EmptyString => []
  | String c s' =>
      match maxsplit with
      | O => [String c s']
      | S m => let (w, r) := span_word (String c s') in w :: split m r
      end
  end.

(** Shapes of text, to state what the parser does. *)

(** Some character of [s] is not whitespace. *)
Fixpoint has_nonspace (s : string) : bool :=
  match s with
  | String c s' => negb (isspace c) || has_nonspace s'
  | EmptyString => false
  end.

(** [s] is a non-empty run of whitespace. *)
Definition whitespace_run (s : string) : bool :=
  negb (String.eqb s "") && negb (has_nonspace s).

Fixpoint has_space (s : string) : bool :=
  match s with
  | String c s' => isspace c || has_space s'
  | EmptyString => false
  end.

(** [s] is a non-empty run of characters that are not whitespace. *)
Definition word (s : string) : bool :=
  negb (String.eqb s "") && negb (has_space s).

(** [s] begins with a character that is not whitespace. *)
Definition starts_with_word (s : string) : bool :=
  match s with
  | String c _ => negb (isspace c)
  | EmptyString => false
  end.

(** [s] is empty or begins with whitespace. *)
Definition word_boundary (s : string) : bool := negb (starts_with_word s).

End PyStr.

(** ** [packit_service/worker/jobs.py]: the comment command parser *)
Module Comment.

Definition REQUESTED_PULL_REQUEST_COMMENT : string := "/packit".

Definition get_packit_commands_from_comment (comment : string) : list string :=
  let comment_parts := PyStr.strip comment in
  if String.eqb comment_parts "" then []
  else
    let cmd_start_index := PyStr.find comment REQUESTED_PULL_REQUEST_COMMENT in
    if (cmd_start_index =? -1)%Z then []
    else
      match PyStr.split 3 (PyStr.slice_from comment cmd_start_index) with
      | [] => []   (* unpacking fails; the slice starts at the marker, so it is never empty *)
      | packit_mark :: packit_command =>
          if negb (String.eqb packit_mark REQUESTED_PULL_REQUEST_COMMENT) then []
          else match packit_command with
               | [] => []
               | _ => packit_command
               end
      end.

(** The text of [s] up to its first line feed: the rest of the line that
    [s] starts on. *)
Fixpoint rest_of_line (s : string) : string :=
  match s with
  | String c s' =>
      if Ascii.eqb c (ascii_of_nat 10) then EmptyString
      else String c (rest_of_line s')
  | EmptyString => EmptyString
  end.

(** The longest suffix of [s] without whitespace. *)
Fixpoint trailing_word (s : string) : string :=
  match s with
  | String c s' =>
      if PyStr.has_space (String c s') then trailing_word s' else String c s'
  | EmptyString => EmptyString
  end.

(** The whitespace-delimited token of [s] around index [n]. *)
Definition token_at (s : string) (n : nat) : string :=
  trailing_word (substring 0 n s) +:+ fst (PyStr.span_word (PyStr.drop n s)).

End Comment.

(** ** [packit_service/worker/jobs.py]: matching, resolving, dispatching *)

(** The event classes [jobs.py] names, and any other class of
    [packit_service.service.events]. *)
Inductive EventClass : Type :=
  | InstallationEvent
  | IssueCommentEvent
  | IssueCommentGitlabEvent
  | MergeRequestCommentGitlabEvent
  | PullRequestCommentGithubEvent
  | PullRequestCommentPagureEvent
  | PullRequestLabelPagureEvent
  | OtherEvent (name : string).

#[global] Instance EventClass_eq_dec : EqDecision EventClass.
Proof. solve_decision. Defined.

(** What the dispatcher reads of an [ogr] project. *)
Record Project : Type := mkProject {
  is_private : bool;
  hostname : string;        (* project.service.hostname *)
  namespace : string
}.

Module Jobs.
Section Dispatch.

(** [packit.config.JobType], [JobConfigTriggerType] and the rest of a
    [JobConfig], opaque to the dispatcher. *)
Context {JobType JobConfigTriggerType JobMetadata : Type}.
Context `{!EqDecision JobType, !EqDecision JobConfigTriggerType,
          !EqDecision JobMetadata}.

(** [Type[JobHandler]]: the handler classes. *)
Context {Handler : Type} `{Countable Handler}.

(** The payload handed to [process_message]. *)
Context {RawEvent : Type}.

Record JobConfig : Type := mkJobConfig {
  type : JobType;
  trigger : JobConfigTriggerType;
  metadata : JobMetadata
}.

#[global] Instance JobConfig_eq_dec : EqDecision JobConfig.
Proof. solve_decision. Defined.

Record PackageConfig : Type := mkPackageConfig {
  jobs : list JobConfig
}.

Record Event : Type := mkEvent {
  event_class : EventClass;
  job_config_trigger_type : JobConfigTriggerType;  (* event.db_trigger.job_config_trigger_type *)
  comment : string;                                (* read on comment events only *)
  package_config : option PackageConfig;
  project : option Project;
  pre_check : bool
}.

Record TaskResults : Type := create_from {
  success : bool;
  msg : string;
  job_config : option JobConfig;
  event : Event
}.

(** A Celery signature, as [handler_kls.get_signature(event, job)] makes it. *)
Record Signature : Type := get_signature {
  sig_handler : Handler;
  sig_event : Event;
  sig_job : option JobConfig
}.

(** What reaches the execution backend: [group(sigs).apply_async()] and
    [sig.apply_async()], in the order of the calls. *)
Inductive Submission : Type :=
  | ApplyGroup (signatures : list Signature)
  | ApplySignature (signature : Signature).

(** The registry of [packit_service.worker.handlers.abstract] (each
    table a [defaultdict(set)]), the class hierarchy of the events, and
    the order in which Python iterates over a set of handler classes. *)
Class Registry : Type := {
  MAP_JOB_TYPE_TO_HANDLER : JobType -> gset Handler;
  MAP_REQUIRED_JOB_TYPE_TO_HANDLER : JobType -> gset Handler;
  MAP_COMMENT_TO_HANDLER : string -> gset Handler;
  SUPPORTED_EVENTS_FOR_HANDLER : Handler -> list EventClass;
  issubclass : EventClass -> EventClass -> bool;
  set_iter : gset Handler -> list Handler;
  set_iter_elements : forall s : gset Handler, set_iter s ≡ₚ elements s;
  get_all_subclasses : list Handler;        (* JobHandler.get_all_subclasses() *)
  topic_of : Handler -> option string;      (* getattr(handler, "topic", None) *)
  GithubAppInstallationHandler : Handler;
  PagurePullRequestLabelHandler : Handler
}.

(** The collaborators of the dispatcher: the two parsers, the service
    configuration and the allow-list gate. *)
Class Services : Type := {
  Parser_parse_event : RawEvent -> option Event;
  CentosEventParser_parse_event : RawEvent -> option Event;
  enabled_private_namespaces : gset string;
  (* Allowlist().check_and_report(event, project, service_config, job_configs) *)
  check_and_report : Event -> option Project -> list JobConfig -> bool
}.

Context {registry : Registry} {services : Services}.

Definition isinstance (e : Event) (classes : list EventClass) : bool :=
  existsb (issubclass (event_class e)) classes.

Definition comment_event_classes : list EventClass :=
  [ PullRequestCommentGithubEvent; PullRequestCommentPagureEvent;
    IssueCommentEvent; MergeRequestCommentGitlabEvent;
    IssueCommentGitlabEvent ].

Definition get_handlers_for_comment (comment : string) : gset Handler :=
  match Comment.get_packit_commands_from_comment comment with
  | [] => ∅
  | command :: _ => MAP_COMMENT_TO_HANDLER command
  end.

(** [job.trigger == event.db_trigger.job_config_trigger_type] *)
Definition on_trigger (e : Event) (job : JobConfig) : bool :=
  bool_decide (trigger job = job_config_trigger_type e).

(** The first loop of [get_handlers_for_event]: the jobs of the trigger,
    each kept once. *)
Definition jobs_matching_trigger_once (e : Event) (pc : PackageConfig)
  : list JobConfig :=
  foldl (fun acc job =>
           if on_trigger e job && negb (bool_decide (job ∈ acc))
           then acc ++ [job] else acc)
        [] (jobs pc).

Definition handlers_triggered_by_comment (e : Event) : option (gset Handler) :=
  if isinstance e comment_event_classes
  then Some (get_handlers_for_comment (comment e))
  else None.

Definition handler_matches (e : Event) (restriction : option (gset Handler))
    (handler : Handler) : bool :=
  isinstance e (SUPPORTED_EVENTS_FOR_HANDLER handler)
  && match restriction with
     | None => true
     | Some hs => bool_decide (handler ∈ hs)
     end.

Definition get_handlers_for_event (e : Event) (pc : PackageConfig)
  : gset Handler :=
  let restriction := handlers_triggered_by_comment e in
  foldl (fun matching_handlers job =>
           foldl (fun matching_handlers handler =>
                    if handler_matches e restriction handler
                    then matching_handlers ∪ {[ handler ]}
                    else matching_handlers)
                 matching_handlers
                 (set_iter (MAP_JOB_TYPE_TO_HANDLER (type job)
                            ∪ MAP_REQUIRED_JOB_TYPE_TO_HANDLER (type job))))
        ∅ (jobs_matching_trigger_once e pc).

(** [for x in xs: if p(x): out.append(x)] *)
Definition collect {A} (p : A -> bool) (xs : list A) : list A :=
  foldl (fun out x => if p x then out ++ [x] else out) [] xs.

(** [handler_kls in MAP_JOB_TYPE_TO_HANDLER[job.type]] *)
Definition direct_for (handler_kls : Handler) (job : JobConfig) : bool :=
  bool_decide (handler_kls ∈ MAP_JOB_TYPE_TO_HANDLER (type job)).

(** [handler_kls in MAP_REQUIRED_JOB_TYPE_TO_HANDLER[job.type]] *)
Definition required_for (handler_kls : Handler) (job : JobConfig) : bool :=
  bool_decide (handler_kls ∈ MAP_REQUIRED_JOB_TYPE_TO_HANDLER (type job)).

Definition get_config_for_handler_kls (handler_kls : Handler) (e : Event)
    (pc : PackageConfig) : list JobConfig :=
  let jobs_matching_trigger := collect (on_trigger e) (jobs pc) in
  let matching_jobs := collect (direct_for handler_kls) jobs_matching_trigger in
  match matching_jobs with
  | [] => collect (required_for handler_kls) jobs_matching_trigger
  | _ => matching_jobs
  end.

(** The config resolver as the specification words it: the jobs are
    first filtered by trigger as the matcher does, each kept once. *)
Definition configs_for_as_specified (handler_kind : Handler) (e : Event)
    (pc : PackageConfig) : list JobConfig :=
  let trigger_filtered := jobs_matching_trigger_once e pc in
  match List.filter (direct_for handler_kind) trigger_filtered with
  | [] => List.filter (required_for handler_kind) trigger_filtered
  | first_pass => first_pass
  end.

Definition not_allowlisted (e : Event) (job_configs : list JobConfig)
  : list TaskResults :=
  map (fun jc => create_from false "Account is not allowlisted!" (Some jc) e)
      job_configs.

Definition job_created (e : Event) (job_configs : list JobConfig)
  : list TaskResults :=
  map (fun jc => create_from true "Job created." (Some jc) e) job_configs.

(** [[handler_kls.get_signature(event=event, job=job_config)
      for job_config in job_configs]] *)
Definition signatures_for (handler_kls : Handler) (e : Event)
    (job_configs : list JobConfig) : list Signature :=
  map (fun job_config => get_signature handler_kls e (Some job_config))
      job_configs.

(** The loop of [process_jobs] over the handler classes still to visit;
    [job_configs] is the variable the loop keeps assigning, [backend]
    what has been submitted so far. *)
Fixpoint process_handlers (e : Event) (pc : PackageConfig)
    (handler_classes : list Handler) (job_configs : list JobConfig)
    (backend : list Submission) : list TaskResults * list Submission :=
  match handler_classes with
  | [] => (job_created e job_configs, backend)
  | handler_kls :: rest =>
      let job_configs := get_config_for_handler_kls handler_kls e pc in
      if negb (check_and_report e (project e) job_configs)
      then (not_allowlisted e job_configs, backend)
      else
        let signatures := signatures_for handler_kls e job_configs in
        process_handlers e pc rest job_configs
                         (backend ++ [ApplyGroup signatures])
  end.

(** [process_jobs]; a [PackageConfig] object is true, so
    [not event.package_config] holds when there is none. *)
Definition process_jobs (e : Event) (backend : list Submission)
  : list TaskResults * list Submission :=
  match package_config e with
  | None =>
      ([create_from true "No packit config found in the repository." None e],
       backend)
  | Some pc =>
      let handler_classes := get_handlers_for_event e pc in
      if bool_decide (handler_classes = ∅) then ([], backend)
      else process_handlers e pc (set_iter handler_classes) [] backend
  end.

(** [if topic: ... if topic not in topics: return []] *)
Definition topic_filter_passes (topic : option string) : bool :=
  match topic with
  | None => true
  | Some t =>
      if String.eqb t "" then true
      else bool_decide (Some t ∈ map topic_of get_all_subclasses)
  end.

(** The check of private repositories in [process_message]. *)
Definition privacy_gate_passes (e : Event) : bool :=
  match project e with
  | None => true
  | Some p =>
      if is_private p
      then bool_decide
             ((hostname p +:+ "/" +:+ namespace p) ∈ enabled_private_namespaces)
      else true
  end.

Definition parse_event (source : option string) (raw : RawEvent)
  : option Event :=
  if bool_decide (source = Some "centosmsg")
  then CentosEventParser_parse_event raw
  else Parser_parse_event raw.

Definition process_message (raw : RawEvent) (topic source : option string)
    (backend : list Submission) : list TaskResults * list Submission :=
  if negb (topic_filter_passes topic) then ([], backend)
  else
    match parse_event source raw with
    | None => ([], backend)
    | Some event_object =>
        if negb (pre_check event_object) then ([], backend)
        else if negb (privacy_gate_passes event_object) then ([], backend)
        else
          let '(processing_results, backend') :=
            if isinstance event_object [InstallationEvent]
            then (None,
                  backend ++ [ApplySignature
                    (get_signature GithubAppInstallationHandler
                                   event_object None)])
            else if isinstance event_object [PullRequestLabelPagureEvent]
            then (None,
                  backend ++ [ApplySignature
                    (get_signature PagurePullRequestLabelHandler
                                   event_object None)])
            else let (results, b) := process_jobs event_object backend in
                 (Some results, b) in
          match processing_results with
          | None =>
              ([create_from true "Job created." None event_object], backend')
          | Some results => (results, backend')
          end
    end.

End Dispatch.
End Jobs.

(** ** [packit_service/worker/reporting.py]: the status reporter *)
Module Reporting.

(** The forge a [GitProject] belongs to, as the [isinstance] tests of
    [reporting.py] see it. *)
Inductive ProjectKind : Type :=
  | GithubProject | GitlabProject | PagureProject | OtherGitProject.

#[global] Instance ProjectKind_eq_dec : EqDecision ProjectKind.
Proof. solve_decision. Defined.

Record GitProject : Type := mkGitProject {
  kind : ProjectKind;
  full_name : string
}.

(** A member of [ogr.abstract.CommitStatus]; the reporter reads its name. *)
Record CommitStatus : Type := mkCommitStatus { name : string }.

(** The exceptions by the [except] clause that catches them. *)
Inductive Exception : Type :=
  | GitlabCreateError (response_code : option Z)
  | GithubException
  | OtherException (what : string).

Record PullRequest : Type := mkPullRequest {
  source_project : GitProject;
  head_commit : string;
  has_set_flag : bool        (* hasattr(pr, "set_flag") *)
}.

(** The calls made on the forge, in order. *)
Inductive Call : Type :=
  | get_pr (project : GitProject) (pr_id : Z)
  | set_commit_status (project : GitProject)
      (commit : string) (state : CommitStatus) (url description check_name : string)
      (trim : bool)
  | commit_comment (project : GitProject) (commit body : string)
  | set_flag (project : GitProject) (pr_id : Z)
      (username comment url : string) (status : CommitStatus) (uid : string).

Record StatusReporter : Type := mkStatusReporter {
  project : GitProject;
  _project_with_commit : option GitProject;
  commit_sha : string;
  pr_id : option Z
}.

Record World : Type := mkWorld {
  self : StatusReporter;
  calls : list Call
}.

(** Computations of the reporter: they read and update the reporter and
    the call log, and return or raise. *)
Definition M (A : Type) : Type := World -> (Exception + A) * World.

Definition ret {A} (a : A) : M A := fun w => (inr a, w).
Definition raise {A} (e : Exception) : M A := fun w => (inl e, w).
Definition bind {A B} (m : M A) (k : A -> M B) : M B :=
  fun w => match m w with
           | (inr a, w') => k a w'
           | (inl e, w') => (inl e, w')
           end.
Definition try_except {A} (m : M A) (handler : Exception -> M A) : M A :=
  fun w => match m w with
           | (inr a, w') => (inr a, w')
           | (inl e, w') => handler e w'
           end.
Definition get_self : M StatusReporter := fun w => (inr (self w), w).
Definition put_self (r : StatusReporter) : M unit :=
  fun w => (inr tt, mkWorld r (calls w)).
Definition log (c : Call) : M unit :=
  fun w => (inr tt, mkWorld (self w) (calls w ++ [c])).

Notation "x <- m ;; k" := (bind m (fun x => k))
  (at level 100, m at next level, right associativity).
Notation "m ;;; k" := (bind m (fun _ => k))
  (at level 100, right associativity).

Definition LF : string := PyStr.LF.

(** [sep.join(parts)] *)
Fixpoint join (sep : string) (parts : list string) : string :=
  match parts with
  | [] => ""
  | [p] => p
  | p :: rest => p +:+ sep +:+ join sep rest
  end.

Definition PAGURE_PLACEHOLDER_URL : string :=
  "https://wiki.centos.org/Manuals/ReleaseNotes/CentOSStream".

(** The commit comments and the pull-request flags among the calls. *)
Definition is_commit_comment (c : Call) : bool :=
  match c with commit_comment _ _ _ => true | _ => false end.
Definition is_set_flag (c : Call) : bool :=
  match c with set_flag _ _ _ _ _ _ _ => true | _ => false end.
Definition comments_posted (cs : list Call) : list Call :=
  List.filter is_commit_comment cs.
Definition flags_set (cs : list Call) : list Call :=
  List.filter is_set_flag cs.

(** How the forge answers each call: [None] and [inr] are normal
    returns, [Some] and [inl] the exception raised. *)
Class Forge : Type := {
  get_pr_result : GitProject -> Z -> Exception + PullRequest;
  set_commit_status_result :
    GitProject -> string -> CommitStatus -> string -> string -> string ->
    option Exception;
  commit_comment_result : GitProject -> string -> string -> option Exception;
  set_flag_result :
    GitProject -> Z -> string -> string -> string -> CommitStatus -> string ->
    option Exception;
  md5_hexdigest : string -> string      (* hashlib.md5(s.encode()).hexdigest() *)
}.

Section Reporter.

Context {forge : Forge}.

Definition returned (r : option Exception) : M unit :=
  match r with
  | None => ret tt
  | Some e => raise e
  end.

Definition call_get_pr (p : GitProject) (id : Z) : M PullRequest :=
  log (get_pr p id) ;;;
  match get_pr_result p id with
  | inr pr => ret pr
  | inl e => raise e
  end.

Definition project_with_commit : M GitProject :=
  r <- get_self ;;
  match _project_with_commit r with
  | Some p => ret p
  | None =>
      p <- match kind (project r), pr_id r with
           | GitlabProject, Some id =>
               pr <- call_get_pr (project r) id ;; ret (source_project pr)
           | _, _ => ret (project r)
           end ;;
      put_self (mkStatusReporter (project r) (Some p) (commit_sha r) (pr_id r)) ;;;
      ret p
  end.

Definition __set_pull_request_status
    (check_name description url : string) (state : CommitStatus) : M unit :=
  r <- get_self ;;
  match pr_id r with
  | None => ret tt
  | Some id =>
      pr <- call_get_pr (project r) id ;;
      if has_set_flag pr && String.eqb (head_commit pr) (commit_sha r)
      then
        let uid := md5_hexdigest check_name in
        log (set_flag (project r) id check_name description url state uid) ;;;
        returned (set_flag_result (project r) id check_name description url
                                  state uid)
      else ret tt
  end.

Definition commit_comment_body
    (state : CommitStatus) (description check_name url : string) : string :=
  join LF [ "- name: " +:+ check_name;
            "- state: " +:+ name state;
            "- url: " +:+ (if String.eqb url "" then "not provided" else url) ]
  +:+ LF +:+ LF +:+ description.

Definition __add_commit_comment_with_status
    (state : CommitStatus) (description check_name url : string) : M unit :=
  r <- get_self ;;
  let body := commit_comment_body state description check_name url in
  log (commit_comment (project r) (commit_sha r) body) ;;;
  returned (commit_comment_result (project r) (commit_sha r) body).

(** The comment the fallback posts. *)
Definition fallback_comment (r : StatusReporter) (state : CommitStatus)
    (description check_name url : string) : Call :=
  commit_comment (project r) (commit_sha r)
                 (commit_comment_body state description check_name url).

(** The world once one more call has been made. *)
Definition after_call (w : World) (c : Call) : World :=
  mkWorld (self w) (calls w ++ [c]).

(** The url [set_status] works with. *)
Definition fixed_url (r : StatusReporter) (url : string) : string :=
  if String.eqb url "" && bool_decide (kind (project r) = PagureProject)
  then PAGURE_PLACEHOLDER_URL else url.

(** The body of the [try] of [set_status]. *)
Definition post_commit_status
    (state : CommitStatus) (description check_name url : string) : M unit :=
  r <- get_self ;;
  p <- project_with_commit ;;
  log (set_commit_status p (commit_sha r) state url description check_name true) ;;;
  returned (set_commit_status_result p (commit_sha r) state url description
                                     check_name).

Definition accepted_codes : list (option Z) := [Some 400; Some 403; Some 404].

(** The [except] clauses of [set_status]. *)
Definition on_status_error
    (state : CommitStatus) (description check_name url : string)
    (e : Exception) : M unit :=
  match e with
  | GitlabCreateError response_code =>
      (if negb (bool_decide (response_code = Some 400))
       then __add_commit_comment_with_status state description check_name url
       else ret tt) ;;;
      if negb (bool_decide (response_code ∈ accepted_codes))
      then raise e
      else ret tt
  | GithubException =>
      __add_commit_comment_with_status state description check_name url
  | OtherException _ => raise e
  end.

Definition set_status
    (state : CommitStatus) (description check_name url : string) : M unit :=
  r <- get_self ;;
  let url := fixed_url r url in
  try_except (post_commit_status state description check_name url)
             (on_status_error state description check_name url) ;;;
  __set_pull_request_status check_name description url state.

(** The [check_names] of [report]: [None], one name, or a list. *)
Inductive CheckNames : Type :=
  | NoCheckNames
  | CheckName (check_name : string)
  | CheckNameList (check_names : list string).

(** [not check_names] *)
Definition no_checks (check_names : CheckNames) : bool :=
  match check_names with
  | NoCheckNames => true
  | CheckName s => String.eqb s ""
  | CheckNameList [] => true
  | CheckNameList (_ :: _) => false
  end.

(** The list [report] and [report_status_by_comment] iterate over once a
    single name has been wrapped. *)
Definition checks_of (check_names : CheckNames) : list string :=
  match check_names with
  | NoCheckNames => []
  | CheckName s => [s]
  | CheckNameList l => l
  end.

(** [for check in check_names: self.set_status(...)] *)
Fixpoint set_statuses (state : CommitStatus) (description url : string)
    (checks : list string) : M unit :=
  match checks with
  | [] => ret tt
  | check :: rest =>
      set_status state description check url ;;;
      set_statuses state description url rest
  end.

Definition report (state : CommitStatus) (description url : string)
    (check_names : CheckNames) : M unit :=
  if no_checks check_names then ret tt
  else set_statuses state description url (checks_of check_names).

(** The check names of the status updates among the calls. *)
Definition checks_posted (cs : list Call) : list string :=
  flat_map (fun c => match c with
                     | set_commit_status _ _ _ _ _ check_name _ => [check_name]
                     | _ => []
                     end) cs.

(** [w'] is [w] after the calls [new]: the reporter still has its
    project, commit and pull-request id. *)
Definition extends (w w' : World) (new : list Call) : Prop :=
  calls w' = calls w ++ new
  /\ project (self w') = project (self w)
  /\ commit_sha (self w') = commit_sha (self w)
  /\ pr_id (self w') = pr_id (self w).

(** What some calls amount to: at most [s] status updates, [c]
    commit comments and [f] flags. *)
Definition within (new : list Call) (s c f : nat) : Prop :=
  (List.length (checks_posted new) <= s)%nat
  /\ (List.length (comments_posted new) <= c)%nat
  /\ (List.length (flags_set new) <= f)%nat.

End Reporter.
End Reporting.

(** ** [packit_service/worker/reporting.py]: reporting by comment *)
Module Commenting.
Import Reporting.

(** [pr.comment(body=body)] on the pull request [pr_id] of a project. *)
Record PrComment : Type := pr_comment {
  on_project : GitProject;
  on_pr : Z;
  text : string
}.

(** The calls [comment] makes: those of the reporter, and comments on
    pull requests. *)
Definition CommentCall : Type := (Call + PrComment)%type.

(** The comments among the calls, on a commit or on a pull request. *)
Definition comments_made (cs : list CommentCall) : list CommentCall :=
  List.filter (fun c => match c with
                        | inl (commit_comment _ _ _) => true
                        | inl _ => false
                        | inr _ => true
                        end) cs.

Record World : Type := mkWorld {
  self : StatusReporter;
  calls : list CommentCall
}.

Definition M (A : Type) : Type := World -> (Exception + A) * World.

Definition ret {A} (a : A) : M A := fun w => (inr a, w).
Definition raise {A} (e : Exception) : M A := fun w => (inl e, w).
Definition bind {A B} (m : M A) (k : A -> M B) : M B :=
  fun w => match m w with
           | (inr a, w') => k a w'
           | (inl e, w') => (inl e, w')
           end.
Definition get_self : M StatusReporter := fun w => (inr (self w), w).
Definition log (c : CommentCall) : M unit :=
  fun w => (inr tt, mkWorld (self w) (calls w ++ [c])).
Definition returned (r : option Exception) : M unit :=
  match r with
  | None => ret tt
  | Some e => raise e
  end.

Declare Scope commenting_scope.
Notation "x <- m ;; k" := (bind m (fun x => k))
  (at level 100, m at next level, right associativity) : commenting_scope.
Notation "m ;;; k" := (bind m (fun _ => k))
  (at level 100, right associativity) : commenting_scope.
Local Open Scope commenting_scope.

(** How a pull request answers a comment, and [str.upper]. *)
Class CommentForge : Type := {
  pr_comment_result : GitProject -> Z -> string -> option Exception;
  upper : string -> string
}.

Section Commenting.

Context {forge : Forge} {comment_forge : CommentForge}.

(** [self.comment(body)]; a pull-request id of [0] is false. *)
Definition comment (body : string) : M unit :=
  r <- get_self ;;
  match pr_id r with
  | Some id =>
      if (id =? 0)%Z
      then
        log (inl (commit_comment (project r) (commit_sha r) body)) ;;;
        returned (commit_comment_result (project r) (commit_sha r) body)
      else
        log (inl (get_pr (project r) id)) ;;;
        match get_pr_result (project r) id with
        | inl e => raise e
        | inr _ =>
            log (inr (pr_comment (project r) id body)) ;;;
            returned (pr_comment_result (project r) id body)
        end
  | None =>
      log (inl (commit_comment (project r) (commit_sha r) body)) ;;;
      returned (commit_comment_result (project r) (commit_sha r) body)
  end.

(** One row of the table of [report_status_by_comment]. *)
Definition table_row (state : CommitStatus) (url check : string) : string :=
  "| [" +:+ check +:+ "](" +:+ url +:+ ") | " +:+ upper (name state) +:+ " |".

Definition comment_table_rows (state : CommitStatus) (url : string)
    (checks : list string) : list string :=
  [ "| Job | Result |"; "| ------------- | ------------ |" ]
  ++ map (table_row state url) checks.

Definition status_comment (state : CommitStatus) (url : string)
    (checks : list string) (description : string) : string :=
  join LF (comment_table_rows state url checks)
  +:+ LF +:+ "### Description" +:+ LF +:+ LF +:+ description.

(** [report_status_by_comment]; iterating over [None] is a [TypeError]. *)
Definition report_status_by_comment (state : CommitStatus) (url : string)
    (check_names : CheckNames) (description : string) : M unit :=
  match check_names with
  | NoCheckNames => raise (OtherException "TypeError")
  | _ => comment (status_comment state url (checks_of check_names) description)
  end.

End Commenting.
End Commenting.

(** ** [packit_service/service/api/copr_builds.py]: the chroots of a build *)
Module CoprBuilds.

(** An [IndexError] of a list. *)
Inductive IndexError : Type := index_out_of_range.

(** [l[0]] *)
Definition first {A} (l : list A) : IndexError + A :=
  match l with
  | x :: _ => inr x
  | [] => inl index_out_of_range
  end.

(** [l[i]] for an index that [enumerate] counts. *)
Definition item {A} (l : list A) (i : nat) : IndexError + A :=
  match l !! i with
  | Some x => inr x
  | None => inl index_out_of_range
  end.

Section PerChroot.

(** The status of a chroot and the id of a build, as the database has
    them. *)
Context {Status PackitId : Type}.

(** The two dictionaries [CoprBuildsList.get] fills for one build. *)
Record PerChroot : Type := mkPerChroot {
  status_per_chroot : gmap string Status;
  packit_id_per_chroot : gmap string PackitId
}.

(** The loop over [enumerate(build.target)], from index [count] on:
    [target] and [status] are lists of one-element lists. *)
Fixpoint fill_chroots (target : list (list string)) (status : list (list Status))
    (new_id : PackitId) (count : nat) (build_dict : PerChroot)
  : IndexError + PerChroot :=
  match target with
  | [] => inr build_dict
  | chroot :: rest =>
      match first chroot with
      | inl e => inl e
      | inr chroot0 =>
          match item status count with
          | inl e => inl e
          | inr statuses =>
              match first statuses with
              | inl e => inl e
              | inr status0 =>
                  fill_chroots rest status new_id (S count)
                    (mkPerChroot
                       (<[chroot0 := status0]> (status_per_chroot build_dict))
                       (<[chroot0 := new_id]>
                          (packit_id_per_chroot build_dict)))
              end
          end
      end
  end.

Definition per_chroot (target : list (list string)) (status : list (list Status))
    (new_id : PackitId) : IndexError + PerChroot :=
  fill_chroots target status new_id 0 (mkPerChroot ∅ ∅).

End PerChroot.
End CoprBuilds.

(** ** Scenarios

    A small registry in the shape of the service's own (Copr builds and
    Testing Farm runs on pull requests), events on it, and forges that
    answer a status update in a fixed way. *)
Module Scenarios.
Import Jobs.

Definition JobConfig : Type := @Jobs.JobConfig string string string.
Definition Event : Type := @Jobs.Event string string string.

Definition CoprBuildHandler : string := "CoprBuildHandler".
Definition TestingFarmHandler : string := "TestingFarmHandler".
Definition PullRequestGithubEvent : EventClass := OtherEvent "PullRequestGithubEvent".

#[export] Instance registry : @Registry string string _ _ := {|
  MAP_JOB_TYPE_TO_HANDLER t :=
    if String.eqb t "copr_build" then {[ CoprBuildHandler ]}
    else if String.eqb t "tests" then {[ TestingFarmHandler ]}
    else ∅;
  MAP_REQUIRED_JOB_TYPE_TO_HANDLER t :=
    if String.eqb t "tests" then {[ CoprBuildHandler ]} else ∅;
  MAP_COMMENT_TO_HANDLER c :=
    if String.eqb c "build" || String.eqb c "copr-build"
    then {[ CoprBuildHandler ]}
    else if String.eqb c "test" then {[ TestingFarmHandler ]}
    else ∅;
  SUPPORTED_EVENTS_FOR_HANDLER _ :=
    [PullRequestGithubEvent; PullRequestCommentGithubEvent];
  issubclass a b := bool_decide (a = b);
  set_iter := elements;
  set_iter_elements := fun _ => reflexivity _;
  get_all_subclasses := [CoprBuildHandler; TestingFarmHandler];
  topic_of _ := None;
  GithubAppInstallationHandler := "GithubAppInstallationHandler";
  PagurePullRequestLabelHandler := "PagurePullRequestLabelHandler"
|}.

(** Services whose parser reads the payload off a table and whose
    allow-list gate is [gate]. *)
Definition services (parse : string -> option Event)
    (gate : Event -> option Project -> list JobConfig -> bool)
  : @Services string string string string := {|
  Parser_parse_event := parse;
  CentosEventParser_parse_event := fun _ => None;
  enabled_private_namespaces := ∅;
  check_and_report := gate
|}.

Definition copr_build_job : JobConfig := mkJobConfig "copr_build" "pull_request" "".
Definition tests_job : JobConfig := mkJobConfig "tests" "pull_request" "".
Definition release_job : JobConfig := mkJobConfig "propose_downstream" "release" "".

Definition packit_repo : Project := mkProject false "github.com" "packit".

Definition event_with (cls : EventClass) (text : string)
    (config : list JobConfig) : Event :=
  mkEvent cls "pull_request" text (Some (mkPackageConfig config))
          (Some packit_repo) true.

(** A pull request on a repository that builds and tests. *)
Definition pull_request : Event :=
  event_with PullRequestGithubEvent "" [copr_build_job; tests_job].

(** A pull request on a repository that only reacts to releases. *)
Definition pull_request_release_only : Event :=
  event_with PullRequestGithubEvent "" [release_job].

(** A pull request on a repository that lists the same build job twice. *)
Definition pull_request_twice : Event :=
  event_with PullRequestGithubEvent "" [copr_build_job; copr_build_job].

(** A pull-request comment that asks for nothing packit knows. *)
Definition chatty_comment : Event :=
  event_with PullRequestCommentGithubEvent "looks good to me"
             [copr_build_job; tests_job].

Definition unknown_command_comment : Event :=
  event_with PullRequestCommentGithubEvent "/packit dance"
             [copr_build_job; tests_job].

Definition reject_all : Event -> option Project -> list JobConfig -> bool :=
  fun _ _ _ => false.
Definition accept_all : Event -> option Project -> list JobConfig -> bool :=
  fun _ _ _ => true.

(** The reporter's side: a GitLab merge request and a forge that answers
    the status update with a create error of the given code. *)
Import Reporting.

Definition upstream : GitProject := mkGitProject GitlabProject "packit/ogr".
Definition fork : GitProject := mkGitProject GitlabProject "contributor/ogr".
Definition head : string := "9f1c2ab".
Definition merge_request : PullRequest := mkPullRequest fork head true.
Definition success_state : CommitStatus := mkCommitStatus "success".

Definition gitlab_answering (status : option Exception) : Forge := {|
  get_pr_result := fun _ _ => inr merge_request;
  set_commit_status_result := fun _ _ _ _ _ _ => status;
  commit_comment_result := fun _ _ _ => None;
  set_flag_result := fun _ _ _ _ _ _ _ => None;
  md5_hexdigest := fun s => "md5:" +:+ s
|}.

Definition reporter_on_merge_request : World :=
  mkWorld (mkStatusReporter upstream None head (Some 7)) [].

(** Further events: a release, a comment that asks for a build, and a
    pull request on a private repository. *)
Definition release_event : Event :=
  event_with (OtherEvent "ReleaseEvent") "" [copr_build_job; tests_job].

Definition build_comment : Event :=
  event_with PullRequestCommentGithubEvent "please /packit build"
             [copr_build_job; tests_job].

Definition secret_repo : Project := mkProject true "gitlab.com" "secret".

Definition private_pull_request : Event :=
  mkEvent PullRequestGithubEvent "pull_request" ""
          (Some (mkPackageConfig [copr_build_job])) (Some secret_repo) true.

(** A gate that lets builds through and stops tests. *)
Definition reject_tests : Event -> option Project -> list JobConfig -> bool :=
  fun _ _ job_configs => negb (bool_decide (tests_job ∈ job_configs)).

(** A reporter on a Pagure pull request, and a Pagure forge. *)
Definition pagure_repo : GitProject := mkGitProject PagureProject "rpms/ogr".

Definition reporter_on_pagure : World :=
  mkWorld (mkStatusReporter pagure_repo None head (Some 12)) [].

(** A forge on which comments on pull requests go through. *)
(** [str.upper] on text in ASCII. *)
Fixpoint upper_ascii (s : string) : string :=
  match s with
  | String c s' =>
      let n := N_of_ascii c in
      String (if ((97 <=? n) && (n <=? 122))%N then ascii_of_N (n - 32) else c)
             (upper_ascii s')
  | EmptyString => EmptyString
  end.

Definition commenting_forge : Commenting.CommentForge := {|
  Commenting.pr_comment_result := fun _ _ _ => None;
  Commenting.upper := upper_ascii
|}.

Definition commenter_on_merge_request : Commenting.World :=
  Commenting.mkWorld (mkStatusReporter upstream None head (Some 7)) [].

End Scenarios.

(** * Properties *)

(** ** Strings *)
Module PyStrFacts.
Import PyStr.

#[local] Arguments String.append !_ _ / : simpl nomatch.

Lemma app_assoc' (a b c : string) : (a +:+ b) +:+ c = a +:+ (b +:+ c).
Proof. induction a as [|x a IH]; simpl; [reflexivity | now rewrite IH]. Qed.

Lemma drop_app (p s : string) : drop (String.length p) (p +:+ s) = s.
Proof. induction p as [|x p IH]; simpl; auto. Qed.

Lemma startswith_drop (p s : string) :
  startswith p s = true -> s = p +:+ drop (String.length p) s.
Proof.
  revert s. induction p as [|a p IH]; intros s Hs; simpl in *.
  - reflexivity.
  - destruct s as [|b s]; [discriminate|].
    apply andb_prop in Hs as [Hab Hs].
    apply Ascii.eqb_eq in Hab. subst b. f_equal. now apply IH.
Qed.

Lemma startswith_app (p s : string) : startswith p (p +:+ s) = true.
Proof.
  induction p as [|a p IH]; simpl; [reflexivity|].
  now rewrite Ascii.eqb_refl, IH.
Qed.

Lemma find_from_found (sub s : string) (i j : Z) :
  find_from sub s i = j -> j <> -1 -> 0 <= i ->
  exists n : nat, j = i + Z.of_nat n /\ startswith sub (drop n s) = true.
Proof.
  revert i. induction s as [|c s IH]; intros i Hf Hj Hi; simpl in Hf.
  - destruct (startswith sub "") eqn:E; [|congruence].
    exists 0%nat. split; [lia | exact E].
  - destruct (startswith sub (String c s)) eqn:E.
    + exists 0%nat. split; [lia | exact E].
    + destruct (IH (i + 1) Hf Hj ltac:(lia)) as (n & Hn & Hs).
      exists (S n). split; [lia | exact Hs].
Qed.

Lemma find_from_lower (sub s : string) (i : Z) :
  0 <= i -> find_from sub s i = -1 \/ i <= find_from sub s i.
Proof.
  revert i. induction s as [|c s IH]; intros i Hi; simpl.
  - destruct (startswith sub ""); [right; lia | now left].
  - destruct (startswith sub (String c s)); [right; lia|].
    destruct (IH (i + 1) ltac:(lia)); [now left | right; lia].
Qed.

(** [find] answers [-1] or an index. *)
Lemma find_range (s sub : string) :
  find s sub = -1 \/ exists n : nat, find s sub = Z.of_nat n.
Proof.
  unfold find. destruct (find_from_lower sub s 0 ltac:(lia)) as [Hf|Hf];
    [now left | right].
  exists (Z.to_nat (find_from sub s 0)). lia.
Qed.

(** Where [find] points, the needle starts. *)
Lemma find_points_at (s sub : string) (n : nat) :
  find s sub = Z.of_nat n -> startswith sub (drop n s) = true.
Proof.
  intros Hf. unfold find in Hf.
  destruct (find_from_found sub s 0 _ Hf ltac:(lia) ltac:(lia)) as (m & Hm & Hs).
  assert (m = n) by lia. now subst.
Qed.

Lemma has_nonspace_drop (n : nat) (s : string) :
  has_nonspace (drop n s) = true -> has_nonspace s = true.
Proof.
  revert s. induction n as [|n IH]; intros s Hs; simpl in Hs; [exact Hs|].
  destruct s as [|c s]; [discriminate|]. simpl.
  rewrite (IH _ Hs). apply orb_true_r.
Qed.

Lemma has_nonspace_lstrip (s : string) :
  has_nonspace (lstrip s) = has_nonspace s.
Proof.
  induction s as [|c s IH]; simpl; [reflexivity|].
  destruct (isspace c) eqn:E; simpl; [exact IH | now rewrite E].
Qed.

Lemma rstrip_empty (s : string) : rstrip s = "" -> has_nonspace s = false.
Proof.
  induction s as [|c s IH]; simpl; [reflexivity|].
  destruct (rstrip s) eqn:E; [|discriminate].
  destruct (isspace c); [|discriminate].
  intros _. simpl. now apply IH.
Qed.

(** A string with a character that is not whitespace does not strip to
    the empty string. *)
Lemma strip_nonempty (s : string) :
  has_nonspace s = true -> String.eqb (strip s) "" = false.
Proof.
  intros Hs. apply String.eqb_neq. intros E. unfold strip in E.
  apply rstrip_empty in E. rewrite has_nonspace_lstrip in E. congruence.
Qed.

Lemma lstrip_whitespace_run (w s : string) :
  has_nonspace w = false -> lstrip (w +:+ s) = lstrip s.
Proof.
  induction w as [|c w IH]; simpl; [reflexivity|].
  intros Hw. apply orb_false_elim in Hw as [Hc Hw].
  apply negb_false_iff in Hc. rewrite Hc. now apply IH.
Qed.

Lemma lstrip_starts_with_word (s : string) :
  starts_with_word s = true -> lstrip s = s.
Proof.
  destruct s as [|c s]; simpl; [discriminate|].
  intros Hc. apply negb_true_iff in Hc. now rewrite Hc.
Qed.

Lemma span_word_boundary (s : string) :
  word_boundary s = true -> span_word s = ("", s).
Proof.
  unfold word_boundary. destruct s as [|c s]; simpl; [reflexivity|].
  intros Hc. apply negb_true_iff, negb_false_iff in Hc. now rewrite Hc.
Qed.

Lemma span_word_app (t r : string) :
  has_space t = false ->
  span_word (t +:+ r) = (t +:+ fst (span_word r), snd (span_word r)).
Proof.
  induction t as [|c t IH]; simpl.
  - intros _. now destruct (span_word r).
  - intros Ht. apply orb_false_elim in Ht as [Hc Ht].
    rewrite Hc, (IH Ht). reflexivity.
Qed.

Lemma append_empty_r (s : string) : s +:+ "" = s.
Proof. induction s as [|c s IH]; simpl; [reflexivity | now rewrite IH]. Qed.

(** A word followed by a boundary is split off whole. *)
Lemma span_word_word (t r : string) :
  has_space t = false -> word_boundary r = true ->
  span_word (t +:+ r) = (t, r).
Proof.
  intros Ht Hr. rewrite (span_word_app _ _ Ht), (span_word_boundary _ Hr).
  simpl. now rewrite append_empty_r.
Qed.

Lemma starts_with_word_app (t r : string) :
  word t = true -> starts_with_word (t +:+ r) = true.
Proof.
  unfold word. destruct t as [|c t]; simpl; [discriminate|].
  intros Ht. apply negb_true_iff, orb_false_elim in Ht as [Hc _].
  now rewrite Hc.
Qed.

Lemma word_boundary_app (w r : string) :
  whitespace_run w = true -> word_boundary (w +:+ r) = true.
Proof.
  unfold whitespace_run, word_boundary. destruct w as [|c w]; simpl; [discriminate|].
  intros Hw. apply negb_true_iff, orb_false_elim in Hw as [Hc _].
  now rewrite Hc.
Qed.

Lemma word_no_space (t : string) : word t = true -> has_space t = false.
Proof. unfold word. intros H. now apply andb_prop in H as [_ H%negb_true_iff]. Qed.

Lemma whitespace_run_all_space (w : string) :
  whitespace_run w = true -> has_nonspace w = false.
Proof.
  unfold whitespace_run. intros H. now apply andb_prop in H as [_ H%negb_true_iff].
Qed.

(** One step of [split]: whitespace, a word, and a boundary behind it. *)
Lemma split_step (m : nat) (w t r : string) :
  has_nonspace w = false -> word t = true -> word_boundary r = true ->
  split (S m) (w +:+ t +:+ r) = t :: split m r.
Proof.
  intros Hw Ht Hr. unfold split; fold split.
  rewrite (lstrip_whitespace_run _ _ Hw).
  rewrite (lstrip_starts_with_word _ (starts_with_word_app t r Ht)).
  pose proof (starts_with_word_app t r Ht) as Hs.
  destruct (t +:+ r) as [|c s] eqn:E; [discriminate|].
  rewrite <- E, (span_word_word _ _ (word_no_space _ Ht) Hr). reflexivity.
Qed.

(** The last piece of [split]: everything after the whitespace. *)
Lemma split_rest (w r : string) :
  has_nonspace w = false -> starts_with_word r = true ->
  split 0 (w +:+ r) = [r].
Proof.
  intros Hw Hr. unfold split.
  rewrite (lstrip_whitespace_run _ _ Hw), (lstrip_starts_with_word _ Hr).
  destruct r; [discriminate | reflexivity].
Qed.

End PyStrFacts.

(** ** The comment command parser *)
Module CommentFacts.
Import PyStr PyStrFacts Comment.

#[local] Arguments String.append !_ _ / : simpl nomatch.

Lemma split_word_first (m : nat) (c : ascii) (s : string) :
  isspace c = false ->
  split (S m) (String c s)
  = String c (fst (span_word s)) :: split m (snd (span_word s)).
Proof.
  intros Hc. cbn [split lstrip]. rewrite Hc. cbn [span_word]. rewrite Hc.
  now destruct (span_word s).
Qed.

(** Splitting text that starts with the marker: the first token is the
    marker and whatever word characters follow it directly. *)
Lemma split_marker (m : nat) (t : string) :
  split (S m) (REQUESTED_PULL_REQUEST_COMMENT +:+ t)
  = (REQUESTED_PULL_REQUEST_COMMENT +:+ fst (span_word t))
    :: split m (snd (span_word t)).
Proof.
  change (REQUESTED_PULL_REQUEST_COMMENT +:+ t)
    with (String "/" ("packit" +:+ t)).
  rewrite split_word_first by reflexivity.
  rewrite (span_word_app "packit" t) by reflexivity. reflexivity.
Qed.

Lemma marker_eqb (w : string) :
  String.eqb (REQUESTED_PULL_REQUEST_COMMENT +:+ w)
             REQUESTED_PULL_REQUEST_COMMENT
  = String.eqb w "".
Proof. reflexivity. Qed.

Lemma slice_from_nat (s : string) (n : nat) :
  slice_from s (Z.of_nat n) = drop n s.
Proof.
  unfold slice_from.
  replace (Z.of_nat n <? 0)%Z with false by (symmetry; apply Z.ltb_ge; lia).
  now rewrite Nat2Z.id.
Qed.

(** What the parser does once [find] has located the marker: the token
    that starts there must be the marker itself, and the rest is split
    twice more. *)
Lemma commands_from_marker (comment t : string) (n : nat) :
  find comment REQUESTED_PULL_REQUEST_COMMENT = Z.of_nat n ->
  drop n comment = REQUESTED_PULL_REQUEST_COMMENT +:+ t ->
  get_packit_commands_from_comment comment =
    if String.eqb (fst (span_word t)) "" then split 2 (snd (span_word t))
    else [].
Proof.
  intros Hfind Hdrop. unfold get_packit_commands_from_comment.
  assert (Hns : has_nonspace comment = true).
  { apply (has_nonspace_drop n). rewrite Hdrop. reflexivity. }
  rewrite (strip_nonempty _ Hns), Hfind.
  replace (Z.of_nat n =? -1)%Z with false by (symmetry; apply Z.eqb_neq; lia).
  rewrite slice_from_nat, Hdrop, split_marker, marker_eqb.
  destruct (String.eqb (fst (span_word t)) ""); cbn [negb]; [|reflexivity].
  now destruct (split 2 _).
Qed.

(** The slice the parser splits starts with the marker, so the unpacking
    [(packit_mark, *packit_command) = ...] always has a first element. *)
Lemma slice_starts_with_marker (comment : string) (n : nat) :
  find comment REQUESTED_PULL_REQUEST_COMMENT = Z.of_nat n ->
  exists t, drop n comment = REQUESTED_PULL_REQUEST_COMMENT +:+ t
            /\ split 3 (slice_from comment (Z.of_nat n))
               = (REQUESTED_PULL_REQUEST_COMMENT +:+ fst (span_word t))
                 :: split 2 (snd (span_word t)).
Proof.
  intros Hfind. apply find_points_at, startswith_drop in Hfind.
  eexists. split; [exact Hfind|].
  now rewrite slice_from_nat, Hfind, split_marker.
Qed.

Lemma no_marker_no_command (comment : string) :
  find comment REQUESTED_PULL_REQUEST_COMMENT = -1 ->
  get_packit_commands_from_comment comment = [].
Proof.
  intros Hfind. unfold get_packit_commands_from_comment. rewrite Hfind.
  now destruct (String.eqb _ _).
Qed.

Lemma lstrip_all_space (s : string) :
  has_nonspace s = false -> lstrip s = "".
Proof.
  induction s as [|c s IH]; simpl; [reflexivity|].
  intros Hs. apply orb_false_elim in Hs as [Hc Hs].
  apply negb_false_iff in Hc. rewrite Hc. now apply IH.
Qed.

(** The marker alone, or with nothing but whitespace behind it, is no
    command. *)
Lemma bare_marker_no_command (comment t : string) (n : nat) :
  find comment REQUESTED_PULL_REQUEST_COMMENT = Z.of_nat n ->
  drop n comment = REQUESTED_PULL_REQUEST_COMMENT +:+ t ->
  has_nonspace t = false ->
  get_packit_commands_from_comment comment = [].
Proof.
  intros Hfind Hdrop Ht. rewrite (commands_from_marker _ t _ Hfind Hdrop).
  assert (Hb : word_boundary t = true).
  { destruct t as [|c t]; [reflexivity|]. simpl in Ht.
    apply orb_false_elim in Ht as [Hc _]. unfold word_boundary. simpl.
    now rewrite Hc. }
  rewrite (span_word_boundary _ Hb). simpl.
  unfold split. now rewrite (lstrip_all_space _ Ht).
Qed.

(** The three-argument shape: marker, whitespace, word, whitespace, word,
    whitespace, and text that starts with a word. *)
Lemma three_arguments (pre w1 t1 w2 t2 w3 rest : string) :
  find (pre +:+ REQUESTED_PULL_REQUEST_COMMENT
            +:+ w1 +:+ t1 +:+ w2 +:+ t2 +:+ w3 +:+ rest)
       REQUESTED_PULL_REQUEST_COMMENT = Z.of_nat (String.length pre) ->
  whitespace_run w1 = true -> word t1 = true ->
  whitespace_run w2 = true -> word t2 = true ->
  whitespace_run w3 = true -> starts_with_word rest = true ->
  get_packit_commands_from_comment
    (pre +:+ REQUESTED_PULL_REQUEST_COMMENT
         +:+ w1 +:+ t1 +:+ w2 +:+ t2 +:+ w3 +:+ rest)
  = [t1; t2; rest].
Proof.
  intros Hfind Hw1 Ht1 Hw2 Ht2 Hw3 Hrest.
  rewrite (commands_from_marker _ _ _ Hfind (drop_app _ _)).
  rewrite (span_word_boundary _ (word_boundary_app w1 _ Hw1)).
  cbn [fst snd String.eqb].
  rewrite (split_step 1 w1 t1 _ (whitespace_run_all_space _ Hw1) Ht1
             (word_boundary_app w2 _ Hw2)).
  rewrite (split_step 0 w2 t2 _ (whitespace_run_all_space _ Hw2) Ht2
             (word_boundary_app w3 _ Hw3)).
  now rewrite (split_rest w3 rest (whitespace_run_all_space _ Hw3) Hrest).
Qed.

(** *** The claims about the parser *)

(** C5, as the code has it: the parser returns ["build"] for
    "/packit build", nothing for "random text" and for "/packitbuild",
    and ["a"; "b"; "c d"] for "/packit a b c d".  In general, when the
    first occurrence of the marker is followed by whitespace, a word,
    whitespace, a second word, whitespace and further text, the two words
    are the first two arguments and the third argument is all the text
    from there to the end of the comment, unchanged: inner and trailing
    whitespace and any later lines included. *)
Theorem third_argument_is_rest_of_comment :
  get_packit_commands_from_comment "/packit build" = ["build"]
  /\ get_packit_commands_from_comment "random text" = []
  /\ get_packit_commands_from_comment "/packitbuild" = []
  /\ get_packit_commands_from_comment "/packit a b c d" = ["a"; "b"; "c d"]
  /\ forall pre w1 t1 w2 t2 w3 rest : string,
       find (pre +:+ REQUESTED_PULL_REQUEST_COMMENT
                 +:+ w1 +:+ t1 +:+ w2 +:+ t2 +:+ w3 +:+ rest)
            REQUESTED_PULL_REQUEST_COMMENT = Z.of_nat (String.length pre) ->
       whitespace_run w1 = true -> word t1 = true ->
       whitespace_run w2 = true -> word t2 = true ->
       whitespace_run w3 = true -> starts_with_word rest = true ->
       get_packit_commands_from_comment
         (pre +:+ REQUESTED_PULL_REQUEST_COMMENT
              +:+ w1 +:+ t1 +:+ w2 +:+ t2 +:+ w3 +:+ rest)
       = [t1; t2; rest].
Proof.
  repeat (split; [reflexivity|]). apply three_arguments.
Qed.

Lemma third_argument_is_rest_of_comment_witness :
  get_packit_commands_from_comment
    "ok /packit copr-build  fedora-all please rebuild,  thanks "
  = ["copr-build"; "fedora-all"; "please rebuild,  thanks "].
Proof.
  exact (proj2 (proj2 (proj2 (proj2 third_argument_is_rest_of_comment)))
           "ok " " " "copr-build" "  " "fedora-all" " "
           "please rebuild,  thanks "
           eq_refl eq_refl eq_refl eq_refl eq_refl eq_refl eq_refl).
Defined.

(** A command with text on a second line, and a comment whose standalone
    marker is not the first occurrence: the third argument runs past the
    end of the line, and the later marker is not looked at. *)
Lemma third_argument_runs_past_the_line :
  get_packit_commands_from_comment ("/packit a b c d" +:+ LF +:+ "e f")
  = ["a"; "b"; "c d" +:+ LF +:+ "e f"]
  /\ rest_of_line ("c d" +:+ LF +:+ "e f") = "c d"
  /\ "c d" +:+ LF +:+ "e f" <> rest_of_line ("c d" +:+ LF +:+ "e f")
  /\ get_packit_commands_from_comment "/packitx /packit a b c d" = [].
Proof. vm_compute. repeat split. discriminate. Qed.

(** C6, as the code has it: when the token that starts at the first
    occurrence of the marker, that is the marker and the characters up to
    the next whitespace, is not exactly the marker, the parser returns
    the empty list.  What stands before the marker in the same word is
    not looked at. *)
Theorem longer_token_at_marker_no_command (comment : string) (n : nat) :
  find comment REQUESTED_PULL_REQUEST_COMMENT = Z.of_nat n ->
  fst (span_word (drop n comment)) <> REQUESTED_PULL_REQUEST_COMMENT ->
  get_packit_commands_from_comment comment = [].
Proof.
  intros Hfind Htoken.
  destruct (slice_starts_with_marker _ _ Hfind) as (t & Hdrop & _).
  rewrite (commands_from_marker _ t _ Hfind Hdrop).
  destruct (String.eqb (fst (span_word t)) "") eqn:E; [|reflexivity].
  apply String.eqb_eq in E. exfalso. apply Htoken. rewrite Hdrop.
  unfold REQUESTED_PULL_REQUEST_COMMENT.
  rewrite (span_word_app "/packit" t) by reflexivity. simpl.
  now rewrite E.
Qed.

Lemma longer_token_at_marker_no_command_witness :
  get_packit_commands_from_comment "see /packit-service docs" = [].
Proof.
  apply (longer_token_at_marker_no_command "see /packit-service docs" 4).
  - reflexivity.
  - vm_compute. discriminate.
Defined.

(** The marker at the end of a longer word: the token of the comment
    around the marker is not the marker, and the command is read. *)
Lemma marker_after_word_is_read :
  find "x/packit build" REQUESTED_PULL_REQUEST_COMMENT = 1
  /\ token_at "x/packit build" 1 = "x/packit"
  /\ token_at "x/packit build" 1 <> REQUESTED_PULL_REQUEST_COMMENT
  /\ get_packit_commands_from_comment "x/packit build" = ["build"]
  /\ get_packit_commands_from_comment "x/packit build" <> [].
Proof. vm_compute. repeat split; discriminate. Qed.

End CommentFacts.

(** ** The matcher, the resolver and the dispatcher *)
Module JobsFacts.
Import Jobs.
Section Dispatch.

Context {JobType JobConfigTriggerType JobMetadata : Type}.
Context `{!EqDecision JobType, !EqDecision JobConfigTriggerType,
          !EqDecision JobMetadata}.
Context {Handler : Type} `{Countable Handler} {RawEvent : Type}.
Context {registry : @Registry JobType Handler _ _}.
Context {services : @Services JobType JobConfigTriggerType JobMetadata RawEvent}.

Local Abbreviation JobConfig := (@JobConfig JobType JobConfigTriggerType JobMetadata).
Local Abbreviation PackageConfig :=
  (@PackageConfig JobType JobConfigTriggerType JobMetadata).
Local Abbreviation Event := (@Event JobType JobConfigTriggerType JobMetadata).
Local Abbreviation Submission :=
  (@Submission JobType JobConfigTriggerType JobMetadata Handler).

Implicit Types (e : Event) (pc : PackageConfig) (job : JobConfig)
  (backend : list Submission) (h : Handler).

(** *** Loops that append are filters *)

Lemma collect_from {A} (p : A -> bool) (xs out : list A) :
  foldl (fun out x => if p x then out ++ [x] else out) out xs
  = out ++ List.filter p xs.
Proof.
  revert out. induction xs as [|x xs IH]; intros out; simpl.
  - now rewrite app_nil_r.
  - rewrite IH. destruct (p x); [|reflexivity].
    now rewrite <- app_assoc.
Qed.

Lemma collect_filter {A} (p : A -> bool) (xs : list A) :
  collect p xs = List.filter p xs.
Proof. unfold collect. now rewrite collect_from. Qed.

(** *** The resolver *)

Lemma get_config_for_handler_kls_filter h e pc :
  get_config_for_handler_kls h e pc =
    let jobs_matching_trigger := List.filter (on_trigger e) (jobs pc) in
    match List.filter (direct_for h) jobs_matching_trigger with
    | [] => List.filter (required_for h) jobs_matching_trigger
    | matching_jobs => matching_jobs
    end.
Proof.
  unfold get_config_for_handler_kls. rewrite !collect_filter. simpl.
  now destruct (List.filter (direct_for h) _).
Qed.

(** *** The matcher *)

Lemma jobs_matching_trigger_once_from e (xs acc : list JobConfig) :
  (forall job, In job xs -> trigger job <> job_config_trigger_type e) ->
  foldl (fun acc job =>
           if on_trigger e job && negb (bool_decide (job ∈ acc))
           then acc ++ [job] else acc) acc xs = acc.
Proof.
  revert acc. induction xs as [|x xs IH]; intros acc Hxs; simpl; [reflexivity|].
  assert (Hx : on_trigger e x = false)
    by apply bool_decide_eq_false_2, Hxs, or_introl, eq_refl.
  rewrite Hx. simpl.
  apply IH. intros job Hjob. apply Hxs. now right.
Qed.

(** No job of the trigger: the matcher has nothing to go through. *)
Lemma no_job_on_trigger e pc :
  (forall job, In job (jobs pc) -> trigger job <> job_config_trigger_type e) ->
  jobs_matching_trigger_once e pc = [].
Proof. apply jobs_matching_trigger_once_from. Qed.

Lemma no_job_no_handler e pc :
  jobs_matching_trigger_once e pc = [] -> get_handlers_for_event e pc = ∅.
Proof. unfold get_handlers_for_event. now intros ->. Qed.

Lemma handler_matches_empty_restriction e h :
  handler_matches e (Some ∅) h = false.
Proof.
  unfold handler_matches.
  rewrite (bool_decide_eq_false_2 (h ∈ (∅ : gset Handler))) by set_solver.
  apply andb_false_r.
Qed.

Lemma keep_when_nothing_matches e restriction (hs : list Handler)
    (acc : gset Handler) :
  (forall h, handler_matches e restriction h = false) ->
  foldl (fun matching_handlers handler =>
           if handler_matches e restriction handler
           then matching_handlers ∪ {[ handler ]}
           else matching_handlers) acc hs = acc.
Proof.
  intros Hno. induction hs as [|h hs IH]; simpl; [reflexivity|].
  now rewrite Hno.
Qed.

(** An empty restriction set leaves no handler. *)
Lemma empty_restriction_no_handler e pc :
  handlers_triggered_by_comment e = Some ∅ ->
  get_handlers_for_event e pc = ∅.
Proof.
  intros Hr. unfold get_handlers_for_event. rewrite Hr.
  induction (jobs_matching_trigger_once e pc) as [|job l IH]; simpl;
    [reflexivity|].
  rewrite keep_when_nothing_matches by apply handler_matches_empty_restriction.
  exact IH.
Qed.

(** *** The dispatcher *)

Lemma set_iter_nonempty (s : gset Handler) h (rest : list Handler) :
  set_iter s = h :: rest -> s <> ∅.
Proof.
  intros Hs ->. pose proof (set_iter_elements (∅ : gset Handler)) as Hp.
  rewrite Hs, elements_empty in Hp. now apply Permutation_nil_r in Hp.
Qed.

(** With every gate open the loop submits one group per handler class
    and keeps the configs of the last one. *)
Lemma process_handlers_all_accepted e pc (hs : list Handler) h_last
    (job_configs : list JobConfig) backend :
  (forall h, In h (hs ++ [h_last]) ->
     check_and_report e (project e) (get_config_for_handler_kls h e pc) = true) ->
  process_handlers e pc (hs ++ [h_last]) job_configs backend
  = (job_created e (get_config_for_handler_kls h_last e pc),
     backend ++ map (fun h => ApplyGroup (signatures_for h e
                         (get_config_for_handler_kls h e pc))) (hs ++ [h_last])).
Proof.
  revert job_configs backend.
  induction hs as [|h hs IH]; intros job_configs backend Hok; simpl.
  - rewrite (Hok h_last) by (now left). reflexivity.
  - rewrite (Hok h) by (now left). simpl.
    rewrite IH by (intros h' Hh'; apply Hok; now right).
    now rewrite <- app_assoc.
Qed.

(** Without duplicates in the configuration the matcher's trigger
    filter is a plain filter. *)
Lemma jobs_matching_trigger_once_nodup_from e (xs acc : list JobConfig) :
  NoDup xs -> (forall job, In job xs -> ~ In job acc) ->
  foldl (fun acc job =>
           if on_trigger e job && negb (bool_decide (job ∈ acc))
           then acc ++ [job] else acc) acc xs
  = acc ++ List.filter (on_trigger e) xs.
Proof.
  revert acc. induction xs as [|x xs IH]; intros acc Hnd Hfresh; simpl.
  - now rewrite app_nil_r.
  - apply NoDup_cons in Hnd as [Hx Hnd].
    assert (Hacc : bool_decide (x ∈ acc) = false).
    { apply bool_decide_eq_false_2. rewrite list_elem_of_In.
      apply Hfresh. now left. }
    rewrite Hacc. destruct (on_trigger e x); simpl.
    + rewrite IH; [now rewrite <- app_assoc | exact Hnd |].
      intros job Hjob [Hin|Hin]%in_app_or.
      * apply (Hfresh job); [now right | exact Hin].
      * destruct Hin as [->|[]]. apply Hx. now apply list_elem_of_In.
    + apply IH; [exact Hnd|]. intros job Hjob. apply Hfresh. now right.
Qed.

Lemma jobs_matching_trigger_once_nodup e pc :
  NoDup (jobs pc) ->
  jobs_matching_trigger_once e pc = List.filter (on_trigger e) (jobs pc).
Proof.
  intros Hnd. unfold jobs_matching_trigger_once.
  exact (jobs_matching_trigger_once_nodup_from e (jobs pc) [] Hnd
           (fun _ _ H => H)).
Qed.

(** *** The claims about the dispatcher *)

(** C1: when the allow-list gate rejects the first handler class the
    loop of [process_jobs] visits, [process_jobs] returns one failed
    result, "Account is not allowlisted!", for each job config resolved
    for that handler class, and nothing at all has been submitted to the
    execution backend: neither for that handler class nor for any of the
    other matched ones. *)
Theorem rejection_aborts_dispatch e pc h (rest : list Handler) backend :
  package_config e = Some pc ->
  set_iter (get_handlers_for_event e pc) = h :: rest ->
  check_and_report e (project e) (get_config_for_handler_kls h e pc) = false ->
  process_jobs e backend
  = (map (fun job_config =>
            create_from false "Account is not allowlisted!" (Some job_config) e)
         (get_config_for_handler_kls h e pc),
     backend).
Proof.
  intros Hpc Hiter Hgate. unfold process_jobs. rewrite Hpc.
  rewrite (bool_decide_eq_false_2 _ (set_iter_nonempty _ _ _ Hiter)), Hiter.
  simpl. now rewrite Hgate.
Qed.

(** C2: when the gate accepts every matched handler class, the list
    [process_jobs] returns holds one success result, "Job created.", for
    each job config resolved for the handler class the loop visits last,
    and nothing else; the signature groups of all the handler classes,
    the earlier ones included, have been submitted in the order of the
    loop. *)
Theorem acknowledgment_of_last_handler e pc (earlier : list Handler) last
    backend :
  package_config e = Some pc ->
  set_iter (get_handlers_for_event e pc) = earlier ++ [last] ->
  (forall h, In h (earlier ++ [last]) ->
     check_and_report e (project e) (get_config_for_handler_kls h e pc) = true) ->
  process_jobs e backend
  = (map (fun job_config =>
            create_from true "Job created." (Some job_config) e)
         (get_config_for_handler_kls last e pc),
     backend
     ++ map (fun h => ApplyGroup
                        (map (fun job_config =>
                                get_signature h e (Some job_config))
                             (get_config_for_handler_kls h e pc)))
            (earlier ++ [last])).
Proof.
  intros Hpc Hiter Hgate. unfold process_jobs. rewrite Hpc.
  assert (Hne : get_handlers_for_event e pc <> ∅).
  { destruct earlier; simpl in Hiter; eapply set_iter_nonempty; exact Hiter. }
  rewrite (bool_decide_eq_false_2 _ Hne), Hiter.
  now rewrite process_handlers_all_accepted.
Qed.

(** C3, as the code has it: for an event that carries a package
    configuration none of whose jobs is on the event's trigger,
    [process_jobs] returns the empty list and submits nothing.  (The one
    success result without a job config is what an event without any
    package configuration gets.) *)
Theorem no_job_on_trigger_empty_result e pc backend :
  package_config e = Some pc ->
  (forall job, In job (jobs pc) -> trigger job <> job_config_trigger_type e) ->
  process_jobs e backend = ([], backend).
Proof.
  intros Hpc Hnone. unfold process_jobs. rewrite Hpc.
  rewrite (no_job_no_handler _ _ (no_job_on_trigger _ _ Hnone)).
  now rewrite bool_decide_eq_true_2.
Qed.

(** C4, as the code has it: a message that passes the topic filter, the
    pre-check and the privacy gate and is neither an installation nor a
    label event gets from [process_message] exactly what [process_jobs]
    returns for its event, an empty list included; the one success
    result "Job created." without a job config is what an installation
    or a label event gets, whose handler is submitted directly. *)
Theorem process_message_returns_dispatch (raw : RawEvent)
    (topic source : option string) backend (event_object : Event) :
  topic_filter_passes topic = true ->
  parse_event source raw = Some event_object ->
  pre_check event_object = true ->
  privacy_gate_passes event_object = true ->
  (isinstance event_object [InstallationEvent] = false ->
   isinstance event_object [PullRequestLabelPagureEvent] = false ->
   process_message raw topic source backend = process_jobs event_object backend)
  /\ (isinstance event_object [InstallationEvent] = true ->
      process_message raw topic source backend
      = ([create_from true "Job created." None event_object],
         backend ++ [ApplySignature
                       (get_signature GithubAppInstallationHandler
                                      event_object None)]))
  /\ (isinstance event_object [InstallationEvent] = false ->
      isinstance event_object [PullRequestLabelPagureEvent] = true ->
      process_message raw topic source backend
      = ([create_from true "Job created." None event_object],
         backend ++ [ApplySignature
                       (get_signature PagurePullRequestLabelHandler
                                      event_object None)])).
Proof.
  intros Htopic Hparse Hpre Hprivate. unfold process_message.
  rewrite Htopic, Hparse, Hpre, Hprivate. cbn [negb].
  split; [|split].
  - intros -> ->. now destruct (process_jobs event_object backend).
  - now intros ->.
  - now intros -> ->.
Qed.

(** The resolver in closed form: the jobs on the event's trigger, in
    their order and with every duplicate, narrowed to those whose job
    type maps directly to the handler class, or, when there is none, to
    those whose job type requires it.  On a configuration without
    duplicate jobs this is the resolver the specification words, with
    the trigger filter of the matcher. *)
Lemma config_resolver_two_passes h e pc :
  get_config_for_handler_kls h e pc
  = (let jobs_matching_trigger := List.filter (on_trigger e) (jobs pc) in
     match List.filter (direct_for h) jobs_matching_trigger with
     | [] => List.filter (required_for h) jobs_matching_trigger
     | matching_jobs => matching_jobs
     end)
  /\ (NoDup (jobs pc) ->
      get_config_for_handler_kls h e pc = configs_for_as_specified h e pc).
Proof.
  split; [apply get_config_for_handler_kls_filter|].
  intros Hnd. rewrite get_config_for_handler_kls_filter.
  unfold configs_for_as_specified.
  now rewrite jobs_matching_trigger_once_nodup.
Qed.

(** C10: for a comment event (pull-request, merge-request or issue
    comment) whose text gives no recognized command, be it that the
    parser returns no command or that the first command word maps to no
    handler, [get_handlers_for_event] returns the empty set, whatever
    the jobs of the package configuration and the events the handlers
    support. *)
Theorem unrecognized_comment_matches_nothing e pc :
  isinstance e comment_event_classes = true ->
  Comment.get_packit_commands_from_comment (comment e) = []
  \/ (exists command arguments,
        Comment.get_packit_commands_from_comment (comment e)
        = command :: arguments
        /\ MAP_COMMENT_TO_HANDLER command = ∅) ->
  get_handlers_for_event e pc = ∅.
Proof.
  intros Hcomment Hnone. apply empty_restriction_no_handler.
  unfold handlers_triggered_by_comment, get_handlers_for_comment.
  rewrite Hcomment.
  destruct Hnone as [-> | (command & arguments & -> & ->)]; reflexivity.
Qed.

End Dispatch.

(** *** The claims on the scenarios *)

Import Scenarios.

Lemma rejection_aborts_dispatch_witness :
  process_jobs (services := Scenarios.services (fun _ => None) reject_all)
               pull_request []
  = ([create_from false "Account is not allowlisted!" (Some copr_build_job)
                  pull_request], []).
Proof.
  etransitivity.
  - apply (rejection_aborts_dispatch
             (services := Scenarios.services (fun _ => None) reject_all)
             pull_request (mkPackageConfig [copr_build_job; tests_job])
             CoprBuildHandler [TestingFarmHandler] []);
      vm_compute; reflexivity.
  - vm_compute. reflexivity.
Defined.

Lemma acknowledgment_of_last_handler_witness :
  process_jobs (services := Scenarios.services (fun _ => None) accept_all)
               pull_request []
  = ([create_from true "Job created." (Some tests_job) pull_request],
     [ApplyGroup [get_signature CoprBuildHandler pull_request
                                (Some copr_build_job)];
      ApplyGroup [get_signature TestingFarmHandler pull_request
                                (Some tests_job)]]).
Proof.
  etransitivity.
  - apply (acknowledgment_of_last_handler
             (services := Scenarios.services (fun _ => None) accept_all)
             pull_request (mkPackageConfig [copr_build_job; tests_job])
             [CoprBuildHandler] TestingFarmHandler []);
      [reflexivity | vm_compute; reflexivity | intros h _; reflexivity].
  - vm_compute. reflexivity.
Defined.

(** A repository that only reacts to releases gets a pull request:
    nothing is returned, where C3 has one success result. *)
Lemma release_only_pull_request_returns_nothing :
  package_config pull_request_release_only
  = Some (mkPackageConfig [release_job])
  /\ trigger release_job
     <> job_config_trigger_type pull_request_release_only
  /\ process_jobs (services := Scenarios.services (fun _ => None) accept_all)
                  pull_request_release_only []
     = ([], [])
  /\ ~ (exists result,
          fst (process_jobs
                 (services := Scenarios.services (fun _ => None) accept_all)
                 pull_request_release_only [])
          = [result]
          /\ success result = true /\ job_config result = None).
Proof.
  split; [reflexivity|]. split; [discriminate|]. split; [reflexivity|].
  intros (result & Hres & _). vm_compute in Hres. discriminate.
Qed.

Lemma no_job_on_trigger_empty_result_witness :
  process_jobs (services := Scenarios.services (fun _ => None) accept_all)
               pull_request_release_only []
  = ([], []).
Proof.
  apply (no_job_on_trigger_empty_result
           (services := Scenarios.services (fun _ => None) accept_all)
           pull_request_release_only (mkPackageConfig [release_job]) []);
    [reflexivity|].
  intros job [<-|[]]. vm_compute. discriminate.
Defined.

(** The same pull request arriving as a message: [process_jobs] yields
    the empty list and [process_message] hands it on, where C4 has the
    default acknowledgment. *)
Lemma empty_dispatch_is_handed_on :
  let services :=
    Scenarios.services (fun _ => Some pull_request_release_only) accept_all in
  topic_filter_passes None = true
  /\ parse_event None "payload" = Some pull_request_release_only
  /\ pre_check pull_request_release_only = true
  /\ privacy_gate_passes pull_request_release_only = true
  /\ isinstance pull_request_release_only
       [InstallationEvent; PullRequestLabelPagureEvent] = false
  /\ fst (process_jobs pull_request_release_only []) = []
  /\ fst (process_message "payload" None None []) = []
  /\ fst (process_message "payload" None None [])
     <> [create_from true "Job created." None pull_request_release_only].
Proof. vm_compute. repeat split; discriminate. Qed.

Lemma process_message_returns_dispatch_witness :
  let services :=
    Scenarios.services (fun _ => Some pull_request) accept_all in
  process_message "payload" None None [] = process_jobs pull_request [].
Proof.
  intros services.
  refine (proj1 (process_message_returns_dispatch (services := services)
                   "payload" None None [] pull_request _ _ _ _) _ _);
    vm_compute; reflexivity.
Defined.

(** C9: the resolver is to filter the jobs by trigger as the matcher
    does, each job kept once.  On a configuration that lists the same
    build job twice it does not: [get_config_for_handler_kls] returns the
    job twice, where the resolver with the matcher's trigger filter
    returns it once. *)
Theorem resolver_keeps_duplicates :
  get_config_for_handler_kls CoprBuildHandler pull_request_twice
    (mkPackageConfig [copr_build_job; copr_build_job])
  = [copr_build_job; copr_build_job]
  /\ configs_for_as_specified CoprBuildHandler pull_request_twice
       (mkPackageConfig [copr_build_job; copr_build_job])
     = [copr_build_job]
  /\ jobs_matching_trigger_once pull_request_twice
       (mkPackageConfig [copr_build_job; copr_build_job])
     = [copr_build_job].
Proof. vm_compute. repeat split. Qed.

Example config_resolver_without_duplicates :
  get_config_for_handler_kls CoprBuildHandler pull_request
    (mkPackageConfig [copr_build_job; tests_job])
  = configs_for_as_specified CoprBuildHandler pull_request
      (mkPackageConfig [copr_build_job; tests_job]).
Proof.
  refine (proj2 (config_resolver_two_passes CoprBuildHandler pull_request
                   (mkPackageConfig [copr_build_job; tests_job])) _).
  apply (bool_decide_unpack (NoDup [copr_build_job; tests_job])).
  vm_compute. reflexivity.
Qed.

Lemma unrecognized_comment_matches_nothing_witness :
  get_handlers_for_event unknown_command_comment
    (mkPackageConfig [copr_build_job; tests_job]) = ∅
  /\ get_handlers_for_event chatty_comment
       (mkPackageConfig [copr_build_job; tests_job]) = ∅.
Proof.
  split.
  - apply (unrecognized_comment_matches_nothing unknown_command_comment);
      [reflexivity|].
    right. exists "dance", []. split; reflexivity.
  - apply (unrecognized_comment_matches_nothing chatty_comment);
      [reflexivity|].
    left. reflexivity.
Defined.

End JobsFacts.

(** ** The status reporter *)
Module ReportingFacts.
Import Reporting.
Section Reporter.

Context {forge : Forge}.

Implicit Types (w : World) (r : StatusReporter) (state : CommitStatus)
  (description check_name url : string) (e : Exception).

Ltac run :=
  unfold set_status, try_except, on_status_error, post_commit_status,
    project_with_commit, __add_commit_comment_with_status,
    __set_pull_request_status, call_get_pr, returned, bind, get_self,
    put_self, log, ret, raise in *;
  simpl in *.

Lemma flags_set_app (cs ds : list Call) :
  flags_set (cs ++ ds) = flags_set cs ++ flags_set ds.
Proof. apply List.filter_app. Qed.

Lemma comments_posted_app (cs ds : list Call) :
  comments_posted (cs ++ ds) = comments_posted cs ++ comments_posted ds.
Proof. apply List.filter_app. Qed.

(** *** Posting the commit status *)

(** The attempt keeps the target of the reporter and makes no comment
    and sets no flag. *)
Lemma post_commit_status_frame state description check_name url w outcome w1 :
  post_commit_status state description check_name url w = (outcome, w1) ->
  project (self w1) = project (self w)
  /\ commit_sha (self w1) = commit_sha (self w)
  /\ pr_id (self w1) = pr_id (self w)
  /\ comments_posted (calls w1) = comments_posted (calls w)
  /\ flags_set (calls w1) = flags_set (calls w).
Proof.
  destruct w as [[p cache sha pr] cs]. run.
  destruct cache as [p'|].
  - destruct (set_commit_status_result _ _ _ _ _ _); intros [= <- <-]; simpl;
      rewrite comments_posted_app, flags_set_app; simpl;
      now rewrite !app_nil_r.
  - destruct (kind p), pr as [id|]; simpl;
      try (destruct (set_commit_status_result _ _ _ _ _ _); intros [= <- <-];
           simpl; rewrite comments_posted_app, flags_set_app; simpl;
           now rewrite !app_nil_r).
    destruct (get_pr_result p id) as [e|pull]; simpl.
    + intros [= <- <-]; simpl.
      rewrite comments_posted_app, flags_set_app; simpl; now rewrite !app_nil_r.
    + destruct (set_commit_status_result _ _ _ _ _ _); intros [= <- <-]; simpl;
        rewrite !comments_posted_app, !flags_set_app; simpl;
        now rewrite !app_nil_r.
Qed.

(** *** What [set_status] does with each outcome of the attempt *)

Section Outcomes.

Variables (state : CommitStatus) (description check_name url : string).
Variables (w w1 : World) (outcome : Exception + unit).

Let url' := fixed_url (self w) url.
Let mirror := __set_pull_request_status check_name description url' state.
Let comment := fallback_comment (self w) state description check_name url'.

Hypothesis attempt :
  post_commit_status state description check_name url' w = (outcome, w1).

Lemma set_status_posted :
  outcome = inr tt -> set_status state description check_name url w = mirror w1.
Proof.
  intros Hout. unfold set_status, bind, get_self, try_except.
  fold url'. now rewrite attempt, Hout.
Qed.

Lemma set_status_queued :
  outcome = inl (GitlabCreateError (Some 400)) ->
  set_status state description check_name url w = mirror w1.
Proof.
  intros Hout. unfold set_status, bind, get_self, try_except.
  fold url'. rewrite attempt, Hout. reflexivity.
Qed.

Lemma fallback_run :
  __add_commit_comment_with_status state description check_name url' w1
  = (match commit_comment_result (project (self w)) (commit_sha (self w))
             (commit_comment_body state description check_name url') with
     | None => inr tt
     | Some e => inl e
     end, after_call w1 comment).
Proof.
  destruct (post_commit_status_frame _ _ _ _ _ _ _ attempt) as (Hp & Hc & _).
  unfold __add_commit_comment_with_status, bind, get_self, log, returned,
    after_call, comment, fallback_comment, ret, raise.
  rewrite Hp, Hc. simpl.
  now destruct (commit_comment_result _ _ _).
Qed.

Lemma set_status_degraded_gitlab (code : option Z) :
  outcome = inl (GitlabCreateError code) ->
  code = Some 403 \/ code = Some 404 ->
  commit_comment_result (project (self w)) (commit_sha (self w))
    (commit_comment_body state description check_name url') = None ->
  set_status state description check_name url w = mirror (after_call w1 comment).
Proof.
  intros Hout Hcode Hok. unfold set_status, bind at 1 2, get_self, try_except.
  fold url'. rewrite attempt, Hout. unfold on_status_error, bind at 1.
  replace (negb (bool_decide (code = Some 400))) with true
    by (destruct Hcode; subst; reflexivity).
  rewrite fallback_run, Hok.
  replace (negb (bool_decide (code ∈ accepted_codes))) with false
    by (destruct Hcode; subst; reflexivity).
  reflexivity.
Qed.

Lemma set_status_degraded_github :
  outcome = inl GithubException ->
  commit_comment_result (project (self w)) (commit_sha (self w))
    (commit_comment_body state description check_name url') = None ->
  set_status state description check_name url w = mirror (after_call w1 comment).
Proof.
  intros Hout Hok. unfold set_status, bind at 1 2, get_self, try_except.
  fold url'. rewrite attempt, Hout. unfold on_status_error.
  now rewrite fallback_run, Hok.
Qed.

Lemma set_status_reraised (code : option Z) :
  outcome = inl (GitlabCreateError code) ->
  code ∉ accepted_codes ->
  set_status state description check_name url w =
    (inl (match commit_comment_result (project (self w)) (commit_sha (self w))
                  (commit_comment_body state description check_name url') with
          | None => GitlabCreateError code
          | Some e => e
          end), after_call w1 comment).
Proof.
  intros Hout Hcode. unfold set_status, bind at 1 2, get_self, try_except.
  fold url'. rewrite attempt, Hout. unfold on_status_error, bind at 1.
  assert (code <> Some 400) as H400.
  { intros ->. apply Hcode. unfold accepted_codes. set_solver. }
  rewrite (bool_decide_eq_false_2 _ H400). cbn [negb].
  rewrite fallback_run.
  destruct (commit_comment_result _ _ _); [reflexivity|].
  now rewrite (bool_decide_eq_false_2 _ Hcode).
Qed.

Lemma set_status_other_exception (what : string) :
  outcome = inl (OtherException what) ->
  set_status state description check_name url w = (inl (OtherException what), w1).
Proof.
  intros Hout. unfold set_status, bind, get_self, try_except.
  fold url'. now rewrite attempt, Hout.
Qed.

End Outcomes.

(** *** The mirror onto the pull request *)

Lemma mirror_without_pr check_name description url state w :
  pr_id (self w) = None ->
  __set_pull_request_status check_name description url state w = (inr tt, w).
Proof. intros Hpr. run. now rewrite Hpr. Qed.

Lemma mirror_writes_flag check_name description url state w id pr :
  pr_id (self w) = Some id ->
  get_pr_result (project (self w)) id = inr pr ->
  has_set_flag pr = true -> head_commit pr = commit_sha (self w) ->
  calls (snd (__set_pull_request_status check_name description url state w))
  = calls w ++ [ get_pr (project (self w)) id;
                 set_flag (project (self w)) id check_name description url
                          state (md5_hexdigest check_name) ].
Proof.
  intros Hid Hpr Hflag Hhead. run. rewrite Hid, Hpr. simpl.
  rewrite Hflag, Hhead, String.eqb_refl. simpl.
  destruct (set_flag_result _ _ _ _ _ _ _); simpl; now rewrite <- app_assoc.
Qed.

Lemma mirror_skips_flag check_name description url state w :
  (forall id pr, pr_id (self w) = Some id ->
     get_pr_result (project (self w)) id = inr pr ->
     has_set_flag pr = false \/ head_commit pr <> commit_sha (self w)) ->
  flags_set
    (calls (snd (__set_pull_request_status check_name description url state w)))
  = flags_set (calls w).
Proof.
  intros Hno. run. destruct (pr_id (self w)) as [id|]; [|reflexivity].
  destruct (get_pr_result (project (self w)) id) as [e|pr] eqn:Hpr; simpl.
  - rewrite flags_set_app. simpl. now rewrite app_nil_r.
  - destruct (Hno id pr eq_refl Hpr) as [Hflag|Hhead].
    + rewrite Hflag. simpl. rewrite flags_set_app. simpl. now rewrite app_nil_r.
    + apply String.eqb_neq in Hhead. rewrite Hhead, andb_false_r. simpl.
      rewrite flags_set_app. simpl. now rewrite app_nil_r.
Qed.

Lemma mirror_posts_no_comment check_name description url state w :
  comments_posted
    (calls (snd (__set_pull_request_status check_name description url state w)))
  = comments_posted (calls w).
Proof.
  run. destruct (pr_id (self w)) as [id|]; [|reflexivity].
  destruct (get_pr_result (project (self w)) id) as [e|pr]; simpl.
  - rewrite comments_posted_app. simpl. now rewrite app_nil_r.
  - destruct (has_set_flag pr && _); simpl.
    + destruct (set_flag_result _ _ _ _ _ _ _); simpl;
        rewrite !comments_posted_app; simpl; now rewrite !app_nil_r.
    + rewrite comments_posted_app. simpl. now rewrite app_nil_r.
Qed.

(** The text of the fallback comment. *)
Lemma commit_comment_body_text state description check_name url :
  commit_comment_body state description check_name url
  = ("- name: " +:+ check_name) +:+ LF
    +:+ ("- state: " +:+ name state) +:+ LF
    +:+ ("- url: " +:+ (if String.eqb url "" then "not provided" else url))
    +:+ LF +:+ LF +:+ description.
Proof.
  unfold commit_comment_body, join.
  now rewrite !PyStrFacts.app_assoc'.
Qed.

(** *** The claims about the reporter *)

(** C7: when the attempt to post the commit status fails with the GitLab
    create error, [set_status] goes on as follows.  With code 400 it
    posts no comment and carries on with the pull-request mirror, so the
    error does not propagate.  With code 403 or 404 it posts the commit
    comment made of name, state, url and description and, the comment
    posted, carries on with the mirror likewise.  With any other code an
    exception propagates to the caller: the create error itself, once the
    comment is posted.  On a reporter without a pull request, where the
    mirror does nothing, the accepted codes end in a normal return. *)
Theorem set_status_on_create_error state description check_name url w w1
    (code : option Z) :
  let url' := fixed_url (self w) url in
  let mirror := __set_pull_request_status check_name description url' state in
  let body := commit_comment_body state description check_name url' in
  let comment := commit_comment (project (self w)) (commit_sha (self w)) body in
  let posted :=
    commit_comment_result (project (self w)) (commit_sha (self w)) body in
  post_commit_status state description check_name url' w
  = (inl (GitlabCreateError code), w1) ->
  (code = Some 400 ->
   set_status state description check_name url w = mirror w1
   /\ comments_posted
        (calls (snd (set_status state description check_name url w)))
      = comments_posted (calls w))
  /\ (code = Some 403 \/ code = Some 404 -> posted = None ->
      set_status state description check_name url w
      = mirror (after_call w1 comment))
  /\ (code ∉ accepted_codes ->
      set_status state description check_name url w
      = (inl (match posted with
              | None => GitlabCreateError code
              | Some e => e
              end), after_call w1 comment))
  /\ (code ∈ accepted_codes -> posted = None -> pr_id (self w) = None ->
      fst (set_status state description check_name url w) = inr tt)
  /\ body
     = ("- name: " +:+ check_name) +:+ LF
       +:+ ("- state: " +:+ name state) +:+ LF
       +:+ ("- url: "
            +:+ (if String.eqb url' "" then "not provided" else url'))
       +:+ LF +:+ LF +:+ description.
Proof.
  intros url' mirror body comment posted Hpost.
  destruct (post_commit_status_frame _ _ _ _ _ _ _ Hpost)
    as (_ & _ & Hpr & Hcomments & _).
  assert (H400 : code = Some 400 ->
                 set_status state description check_name url w = mirror w1).
  { intros ->. now apply (set_status_queued _ _ _ _ _ _ _ Hpost). }
  assert (H40x : code = Some 403 \/ code = Some 404 -> posted = None ->
                 set_status state description check_name url w
                 = mirror (after_call w1 comment)).
  { intros Hcode Hok.
    now apply (set_status_degraded_gitlab _ _ _ _ _ _ _ Hpost code). }
  split; [|split; [exact H40x|split; [|split]]].
  - intros Hcode. split; [now apply H400|].
    rewrite (H400 Hcode). unfold mirror.
    now rewrite mirror_posts_no_comment.
  - intros Hcode.
    now apply (set_status_reraised _ _ _ _ _ _ _ Hpost code).
  - intros Hcode Hok Hnone.
    assert (code = Some 400 \/ (code = Some 403 \/ code = Some 404))
      as [Hc|Hc].
    { unfold accepted_codes in Hcode. apply list_elem_of_In in Hcode.
      destruct Hcode as [<-|[<-|[<-|[]]]]; auto. }
    + rewrite (H400 Hc). unfold mirror.
      rewrite mirror_without_pr; [reflexivity | congruence].
    + rewrite (H40x Hc Hok). unfold mirror.
      rewrite mirror_without_pr; [reflexivity | simpl; congruence].
  - apply commit_comment_body_text.
Qed.

(** C8, as the code has it: the pull-request mirror is attempted after
    the commit status is posted and after the silent degradations (the
    create error with code 400; code 403 or 404, or the GitHub
    exception, once the comment is posted).  After a create error with a
    code outside the accepted set, or any other exception, [set_status]
    raises with the calls made so far and the mirror is not attempted.
    The mirror itself writes the flag when the reporter has a
    pull-request id, the pull request exposes [set_flag] and its head
    commit is the commit reported, and writes no flag otherwise. *)
Theorem mirror_after_status_phase state description check_name url w w1
    (outcome : Exception + unit) :
  let url' := fixed_url (self w) url in
  let mirror := __set_pull_request_status check_name description url' state in
  let comment := fallback_comment (self w) state description check_name url' in
  let posted :=
    commit_comment_result (project (self w)) (commit_sha (self w))
      (commit_comment_body state description check_name url') in
  post_commit_status state description check_name url' w = (outcome, w1) ->
  (outcome = inr tt \/ outcome = inl (GitlabCreateError (Some 400)) ->
   set_status state description check_name url w = mirror w1)
  /\ (outcome = inl GithubException
      \/ outcome = inl (GitlabCreateError (Some 403))
      \/ outcome = inl (GitlabCreateError (Some 404)) ->
      posted = None ->
      set_status state description check_name url w
      = mirror (after_call w1 comment))
  /\ (forall code, outcome = inl (GitlabCreateError code) ->
      code ∉ accepted_codes ->
      set_status state description check_name url w
      = (inl (match posted with
              | None => GitlabCreateError code
              | Some e => e
              end), after_call w1 comment))
  /\ (forall what, outcome = inl (OtherException what) ->
      set_status state description check_name url w
      = (inl (OtherException what), w1))
  /\ (forall w0 id pr,
        pr_id (self w0) = Some id ->
        get_pr_result (project (self w0)) id = inr pr ->
        has_set_flag pr = true -> head_commit pr = commit_sha (self w0) ->
        calls (snd (mirror w0))
        = calls w0 ++ [ get_pr (project (self w0)) id;
                        set_flag (project (self w0)) id check_name description
                                 url' state (md5_hexdigest check_name) ])
  /\ (forall w0,
        (forall id pr,
           pr_id (self w0) = Some id ->
           get_pr_result (project (self w0)) id = inr pr ->
           has_set_flag pr = false \/ head_commit pr <> commit_sha (self w0)) ->
        flags_set (calls (snd (mirror w0))) = flags_set (calls w0)).
Proof.
  intros url' mirror comment posted Hpost.
  split; [|split; [|split; [|split; [|split]]]].
  - intros [Hout|Hout].
    + now apply (set_status_posted _ _ _ _ _ _ _ Hpost).
    + now apply (set_status_queued _ _ _ _ _ _ _ Hpost).
  - intros [Hout|[Hout|Hout]] Hok.
    + now apply (set_status_degraded_github _ _ _ _ _ _ _ Hpost).
    + apply (set_status_degraded_gitlab _ _ _ _ _ _ _ Hpost (Some 403));
        auto.
    + apply (set_status_degraded_gitlab _ _ _ _ _ _ _ Hpost (Some 404));
        auto.
  - intros code Hout Hcode.
    now apply (set_status_reraised _ _ _ _ _ _ _ Hpost code).
  - intros what Hout.
    now apply (set_status_other_exception _ _ _ _ _ _ _ Hpost what).
  - intros w0 id pr. apply mirror_writes_flag.
  - intros w0. apply mirror_skips_flag.
Qed.

End Reporter.

(** *** The claims on the scenarios *)

Import Scenarios.

Lemma set_status_on_create_error_witness :
  let forge := gitlab_answering (Some (GitlabCreateError (Some 403))) in
  set_status success_state "RPMs built" "rpm-build" "https://ci/42"
             reporter_on_merge_request
  = __set_pull_request_status "rpm-build" "RPMs built" "https://ci/42"
      success_state
      (after_call
         (snd (post_commit_status success_state "RPMs built" "rpm-build"
                 "https://ci/42" reporter_on_merge_request))
         (commit_comment upstream head
            (commit_comment_body success_state "RPMs built" "rpm-build"
                                 "https://ci/42"))).
Proof.
  intros forge.
  refine (proj1 (proj2 (set_status_on_create_error (forge := forge)
            success_state "RPMs built" "rpm-build" "https://ci/42"
            reporter_on_merge_request _ (Some 403) _)) _ _);
    [vm_compute; reflexivity | now left | reflexivity].
Defined.

(** A create error with code 500 on a merge request that has the flag
    API and whose head is the commit reported: [set_status] raises after
    the fallback comment, and the mirror that C8 expects is never made. *)
Lemma mirror_skipped_on_reraise :
  let forge := gitlab_answering (Some (GitlabCreateError (Some 500))) in
  let run :=
    set_status success_state "RPMs built" "rpm-build" "https://ci/42"
               reporter_on_merge_request in
  pr_id (self reporter_on_merge_request) = Some 7
  /\ get_pr_result upstream 7 = inr merge_request
  /\ has_set_flag merge_request = true
  /\ head_commit merge_request = commit_sha (self reporter_on_merge_request)
  /\ fst run = inl (GitlabCreateError (Some 500))
  /\ calls (snd run)
     = [ get_pr upstream 7;
         set_commit_status fork head success_state "https://ci/42"
                           "RPMs built" "rpm-build" true;
         commit_comment upstream head
           (commit_comment_body success_state "RPMs built" "rpm-build"
                                "https://ci/42") ]
  /\ flags_set (calls (snd run)) = [].
Proof. vm_compute. repeat split. Qed.

Lemma mirror_after_status_phase_witness :
  let forge := gitlab_answering None in
  calls (snd (set_status success_state "RPMs built" "rpm-build"
                "https://ci/42" reporter_on_merge_request))
  = [ get_pr upstream 7;
      set_commit_status fork head success_state "https://ci/42"
                        "RPMs built" "rpm-build" true;
      get_pr upstream 7;
      set_flag upstream 7 "rpm-build" "RPMs built" "https://ci/42"
               success_state (md5_hexdigest "rpm-build") ].
Proof.
  intros forge.
  pose proof (mirror_after_status_phase (forge := forge)
                success_state "RPMs built" "rpm-build" "https://ci/42"
                reporter_on_merge_request
                (snd (post_commit_status success_state "RPMs built"
                        "rpm-build" "https://ci/42" reporter_on_merge_request))
                (inr tt) eq_refl) as (Hposted & _ & _ & _ & Hflag & _).
  rewrite (Hposted (or_introl eq_refl)).
  rewrite (Hflag (snd (post_commit_status (forge := forge) success_state
                         "RPMs built" "rpm-build" "https://ci/42"
                         reporter_on_merge_request))
                 7 merge_request ltac:(vm_compute; reflexivity)
                 ltac:(vm_compute; reflexivity) eq_refl
                 ltac:(vm_compute; reflexivity)).
  vm_compute. reflexivity.
Defined.

End ReportingFacts.

(** * Further properties *)

(** ** The parser: what every answer looks like *)
Module ParserFacts.
Import PyStr PyStrFacts Comment CommentFacts.

#[local] Arguments String.append !_ _ / : simpl nomatch.

Lemma lstrip_cases (s : string) :
  lstrip s = "" \/ starts_with_word (lstrip s) = true.
Proof.
  induction s as [|c s IH]; simpl; [now left|].
  destruct (isspace c) eqn:E; [exact IH|]. right. simpl. now rewrite E.
Qed.

Lemma lstrip_has_nonspace (s : string) :
  has_nonspace s = true -> lstrip s <> "".
Proof.
  intros Hs E. rewrite <- has_nonspace_lstrip, E in Hs. discriminate.
Qed.

(** [span_word] cuts a word off, and what is left starts at a boundary. *)
Lemma span_word_spec (s : string) :
  has_space (fst (span_word s)) = false
  /\ word_boundary (snd (span_word s)) = true
  /\ s = fst (span_word s) +:+ snd (span_word s).
Proof.
  induction s as [|c s IH]; simpl; [now repeat split|].
  destruct (isspace c) eqn:E; simpl.
  - repeat split. unfold word_boundary. simpl. now rewrite E.
  - destruct (span_word s) as [w r]. simpl in *.
    destruct IH as (Hw & Hr & Hs). rewrite E, Hw. repeat split; [exact Hr|].
    now rewrite <- Hs.
Qed.

Lemma span_word_starts (s : string) :
  starts_with_word s = true -> starts_with_word (fst (span_word s)) = true.
Proof.
  destruct s as [|c s]; simpl; [discriminate|]. intros Hc.
  apply negb_true_iff in Hc. rewrite Hc.
  destruct (span_word s). simpl. now rewrite Hc.
Qed.

Lemma span_word_empty (s : string) :
  fst (span_word s) = "" -> span_word s = ("", s).
Proof.
  destruct s as [|c s]; simpl; [reflexivity|].
  destruct (isspace c); [reflexivity|]. now destruct (span_word s).
Qed.

(** [split] makes at most [maxsplit + 1] pieces, none of them empty or
    starting with whitespace, and all but the last are free of it. *)
Lemma split_length (m : nat) (s : string) :
  (List.length (split m s) <= S m)%nat.
Proof.
  revert s. induction m as [|m IH]; intros s; cbn [split].
  - destruct (lstrip s); simpl; lia.
  - destruct (lstrip s) as [|c s']; [simpl; lia|].
    destruct (span_word (String c s')) as [w r]. simpl.
    specialize (IH r). lia.
Qed.

Lemma split_pieces (m : nat) (s : string) :
  Forall (fun piece => starts_with_word piece = true) (split m s).
Proof.
  revert s. induction m as [|m IH]; intros s; cbn [split];
    destruct (lstrip_cases s) as [E|E].
  - rewrite E. constructor.
  - destruct (lstrip s) as [|c s']; [constructor|].
    constructor; [exact E | constructor].
  - rewrite E. constructor.
  - destruct (lstrip s) as [|c s'] eqn:El; [constructor|].
    pose proof (span_word_starts _ E) as Hw.
    destruct (span_word (String c s')) as [w r]. constructor; [exact Hw|].
    apply IH.
Qed.

Lemma split_words (m : nat) (s : string) (i : nat) (piece : string) :
  (i < m)%nat -> split m s !! i = Some piece -> has_space piece = false.
Proof.
  revert s i. induction m as [|m IH]; intros s i Hi; [lia|]. cbn [split].
  destruct (lstrip s) as [|c s']; [discriminate|].
  pose proof (span_word_spec (String c s')) as (Hw & _ & _).
  destruct (span_word (String c s')) as [w r]. destruct i as [|i]; simpl.
  - now intros [= <-].
  - apply IH. lia.
Qed.

(** The parser answers nothing, or what [split] made after the marker. *)
Lemma commands_are_split_tail (comment : string) :
  get_packit_commands_from_comment comment = []
  \/ exists packit_mark,
       split 3 (slice_from comment
                  (find comment REQUESTED_PULL_REQUEST_COMMENT))
       = packit_mark :: get_packit_commands_from_comment comment.
Proof.
  unfold get_packit_commands_from_comment.
  destruct (String.eqb (strip comment) ""); [now left|].
  destruct (find comment REQUESTED_PULL_REQUEST_COMMENT =? -1)%Z; [now left|].
  destruct (split 3 _) as [|packit_mark packit_command]; [now left|].
  destruct (negb (String.eqb packit_mark _)); [now left|].
  destruct packit_command; [now left|]. right. now exists packit_mark.
Qed.

(** X1: whatever the comment, the parser returns at most three
    arguments; none of them is empty or starts with whitespace, and the
    first two contain no whitespace at all. *)
Theorem commands_shape (comment : string) :
  (List.length (get_packit_commands_from_comment comment) <= 3)%nat
  /\ Forall (fun argument => starts_with_word argument = true)
            (get_packit_commands_from_comment comment)
  /\ forall (i : nat) (argument : string),
       (i < 2)%nat ->
       get_packit_commands_from_comment comment !! i = Some argument ->
       has_space argument = false.
Proof.
  destruct (commands_are_split_tail comment) as [E|[packit_mark E]].
  - rewrite E. split; [simpl; lia|]. split; [constructor|]. intros i a _.
    now rewrite lookup_nil.
  - pose proof (split_length 3 (slice_from comment
                  (find comment REQUESTED_PULL_REQUEST_COMMENT))) as Hlen.
    pose proof (split_pieces 3 (slice_from comment
                  (find comment REQUESTED_PULL_REQUEST_COMMENT))) as Hall.
    rewrite E in Hlen, Hall. simpl in Hlen. split; [lia|].
    split; [now apply Forall_cons in Hall as [_ Hall]|].
    intros i argument Hi Hlook.
    apply (split_words 3 (slice_from comment
             (find comment REQUESTED_PULL_REQUEST_COMMENT)) (S i));
      [lia | now rewrite E].
Qed.

Lemma find_at_head (t : string) :
  find (REQUESTED_PULL_REQUEST_COMMENT +:+ t) REQUESTED_PULL_REQUEST_COMMENT
  = 0.
Proof. reflexivity. Qed.

(** X2: the text before the first occurrence of the marker plays no
    part: the parser answers for the comment what it answers for the
    comment cut at that occurrence. *)
Theorem text_before_marker_is_ignored (comment : string) (n : nat) :
  find comment REQUESTED_PULL_REQUEST_COMMENT = Z.of_nat n ->
  get_packit_commands_from_comment comment
  = get_packit_commands_from_comment (drop n comment).
Proof.
  intros Hfind.
  destruct (slice_starts_with_marker _ _ Hfind) as (t & Hdrop & _).
  rewrite (commands_from_marker _ t n Hfind Hdrop), Hdrop.
  symmetry. apply (commands_from_marker _ t 0); [apply find_at_head|].
  reflexivity.
Qed.

Lemma text_before_marker_is_ignored_witness :
  get_packit_commands_from_comment "Thanks for the fix! /packit test"
  = get_packit_commands_from_comment "/packit test".
Proof.
  exact (text_before_marker_is_ignored "Thanks for the fix! /packit test" 20
           eq_refl).
Defined.

(** X3: the parser returns a command exactly when the first occurrence
    of the marker is followed by whitespace and then by some text that
    is not whitespace; the arguments are then that text, split at most
    twice. *)
Theorem command_iff_marker_then_text (comment : string) :
  get_packit_commands_from_comment comment <> []
  <-> exists (n : nat) (t : string),
        find comment REQUESTED_PULL_REQUEST_COMMENT = Z.of_nat n
        /\ drop n comment = REQUESTED_PULL_REQUEST_COMMENT +:+ t
        /\ word_boundary t = true /\ has_nonspace t = true
        /\ get_packit_commands_from_comment comment = split 2 t.
Proof.
  split.
  - intros Hne. destruct (find_range comment REQUESTED_PULL_REQUEST_COMMENT)
      as [Hnone|[n Hfind]].
    { now apply no_marker_no_command in Hnone. }
    destruct (slice_starts_with_marker _ _ Hfind) as (t & Hdrop & _).
    pose proof (commands_from_marker _ t n Hfind Hdrop) as Hcmd.
    exists n, t. split; [exact Hfind|]. split; [exact Hdrop|].
    destruct (String.eqb (fst (span_word t)) "") eqn:E;
      [|now rewrite Hcmd in Hne].
    apply String.eqb_eq, span_word_empty in E. rewrite E in Hcmd.
    simpl in Hcmd.
    assert (Hb : word_boundary t = true).
    { pose proof (span_word_spec t) as (_ & Hb & _). now rewrite E in Hb. }
    split; [exact Hb|]. split; [|exact Hcmd].
    destruct (has_nonspace t) eqn:Hns; [reflexivity|]. exfalso. apply Hne.
    now apply (bare_marker_no_command comment t n).
  - intros (n & t & Hfind & Hdrop & Hb & Hns & Hcmd). rewrite Hcmd.
    cbn [split]. pose proof (lstrip_has_nonspace _ Hns) as Hl.
    destruct (lstrip t) as [|c s']; [congruence|].
    now destruct (span_word (String c s')).
Qed.

End ParserFacts.

(** ** The matcher and the resolver: who is matched, what is resolved *)
Module MatchingFacts.
Import Jobs JobsFacts.
Section Dispatch.

Context {JobType JobConfigTriggerType JobMetadata : Type}.
Context `{!EqDecision JobType, !EqDecision JobConfigTriggerType,
          !EqDecision JobMetadata}.
Context {Handler : Type} `{Countable Handler} {RawEvent : Type}.
Context {registry : @Registry JobType Handler _ _}.
Context {services : @Services JobType JobConfigTriggerType JobMetadata RawEvent}.

Local Abbreviation JobConfig := (@JobConfig JobType JobConfigTriggerType JobMetadata).
Local Abbreviation PackageConfig :=
  (@PackageConfig JobType JobConfigTriggerType JobMetadata).
Local Abbreviation Event := (@Event JobType JobConfigTriggerType JobMetadata).
Local Abbreviation Submission :=
  (@Submission JobType JobConfigTriggerType JobMetadata Handler).

Implicit Types (e : Event) (pc : PackageConfig) (job : JobConfig)
  (backend : list Submission) (h : Handler).

Lemma on_trigger_true e job :
  on_trigger e job = true <-> trigger job = job_config_trigger_type e.
Proof. unfold on_trigger. apply bool_decide_eq_true. Qed.

Lemma in_once_from e (xs acc : list JobConfig) job :
  job ∈ foldl (fun acc job =>
                 if on_trigger e job && negb (bool_decide (job ∈ acc))
                 then acc ++ [job] else acc) acc xs
  <-> job ∈ acc \/ (job ∈ xs /\ on_trigger e job = true).
Proof.
  revert acc. induction xs as [|x xs IH]; intros acc; simpl.
  - split; [now left | intros [Hin|[Hin _]]; [exact Hin | inversion Hin]].
  - rewrite IH, elem_of_cons. destruct (on_trigger e x) eqn:Ex; simpl.
    + destruct (bool_decide (x ∈ acc)) eqn:Ea; simpl.
      * apply bool_decide_eq_true in Ea. intuition (subst; auto; congruence).
      * rewrite elem_of_app, list_elem_of_singleton. intuition (subst; auto; congruence).
    + intuition (subst; auto; congruence).
Qed.

(** The jobs the matcher goes through: those of the configuration that
    are on the trigger. *)
Lemma in_jobs_matching_trigger_once e pc job :
  job ∈ jobs_matching_trigger_once e pc
  <-> job ∈ jobs pc /\ on_trigger e job = true.
Proof.
  unfold jobs_matching_trigger_once. rewrite in_once_from.
  split; [intros [Hin|?]; [inversion Hin | assumption] | now right].
Qed.

Lemma in_set_iter (s : gset Handler) h : h ∈ set_iter s <-> h ∈ s.
Proof. now rewrite (set_iter_elements s), elem_of_elements. Qed.

Lemma in_matching_from e restriction (hs : list Handler)
    (acc : gset Handler) h :
  h ∈ foldl (fun matching_handlers handler =>
               if handler_matches e restriction handler
               then matching_handlers ∪ {[ handler ]}
               else matching_handlers) acc hs
  <-> h ∈ acc \/ (h ∈ hs /\ handler_matches e restriction h = true).
Proof.
  revert acc. induction hs as [|x hs IH]; intros acc; simpl.
  - split; [now left | intros [Hin|[Hin _]]; [exact Hin | inversion Hin]].
  - rewrite IH, elem_of_cons. destruct (handler_matches e restriction x) eqn:Ex.
    + rewrite elem_of_union, elem_of_singleton. intuition (subst; auto; congruence).
    + intuition (subst; auto; congruence).
Qed.

Lemma in_handlers_from e restriction (js : list JobConfig)
    (acc : gset Handler) h :
  h ∈ foldl (fun matching_handlers job =>
               foldl (fun matching_handlers handler =>
                        if handler_matches e restriction handler
                        then matching_handlers ∪ {[ handler ]}
                        else matching_handlers)
                     matching_handlers
                     (set_iter (MAP_JOB_TYPE_TO_HANDLER (type job)
                                ∪ MAP_REQUIRED_JOB_TYPE_TO_HANDLER (type job))))
            acc js
  <-> h ∈ acc
      \/ (handler_matches e restriction h = true
          /\ exists job, job ∈ js
               /\ h ∈ MAP_JOB_TYPE_TO_HANDLER (type job)
                      ∪ MAP_REQUIRED_JOB_TYPE_TO_HANDLER (type job)).
Proof.
  revert acc. induction js as [|x js IH]; intros acc; simpl.
  - split; [now left | intros [Hin|(_ & job & Hin & _)];
                         [exact Hin | inversion Hin]].
  - rewrite IH, in_matching_from, in_set_iter. split.
    + intros [[Hacc|[Hx Hm]]|(Hm & job & Hjob & Hh)]; [now left | |].
      * right. split; [exact Hm|]. exists x. split; [now left | exact Hx].
      * right. split; [exact Hm|]. exists job. split; [now right | exact Hh].
    + intros [Hacc|(Hm & job & Hjob & Hh)]; [now left; left|].
      apply elem_of_cons in Hjob as [-> | Hjob].
      * left. right. now split.
      * right. split; [exact Hm|]. now exists job.
Qed.

(** X4: a handler class is matched exactly when some job of the
    configuration is on the event's trigger and has a job type that maps
    to the handler class directly or requires it, the handler class
    supports the class of the event, and, on a comment event, the
    comment's command names the handler class. *)
Theorem handler_matched_iff e pc h :
  h ∈ get_handlers_for_event e pc
  <-> (exists job,
         job ∈ jobs pc
         /\ trigger job = job_config_trigger_type e
         /\ (h ∈ MAP_JOB_TYPE_TO_HANDLER (type job)
             \/ h ∈ MAP_REQUIRED_JOB_TYPE_TO_HANDLER (type job)))
      /\ isinstance e (SUPPORTED_EVENTS_FOR_HANDLER h) = true
      /\ (isinstance e comment_event_classes = true ->
          h ∈ get_handlers_for_comment (comment e)).
Proof.
  unfold get_handlers_for_event. rewrite in_handlers_from.
  unfold handler_matches, handlers_triggered_by_comment.
  split.
  - intros [Hin|(Hm & job & Hjob & Hh)]; [now apply not_elem_of_empty in Hin|].
    apply in_jobs_matching_trigger_once in Hjob as [Hjob Ht].
    apply on_trigger_true in Ht. apply elem_of_union in Hh.
    apply andb_prop in Hm as [Hs Hr]. split; [now exists job|].
    split; [exact Hs|]. intros Hc. rewrite Hc in Hr.
    now apply bool_decide_eq_true in Hr.
  - intros ((job & Hjob & Ht & Hh) & Hs & Hr). right. split.
    + rewrite Hs. cbn [andb].
      destruct (isinstance e comment_event_classes); [|reflexivity].
      now apply bool_decide_eq_true, Hr.
    + exists job. split; [|now apply elem_of_union].
      apply in_jobs_matching_trigger_once. split; [exact Hjob|].
      now apply on_trigger_true.
Qed.

(** X5: when no handler class of the registry supports the class of the
    event, nothing is matched, whatever the jobs and their triggers. *)
Theorem unsupported_event_matches_nothing e pc :
  (forall h, isinstance e (SUPPORTED_EVENTS_FOR_HANDLER h) = false) ->
  get_handlers_for_event e pc = ∅.
Proof.
  intros Hno. apply set_eq. intros h. rewrite handler_matched_iff.
  split; [|intros Hin; now apply not_elem_of_empty in Hin].
  intros (_ & Hs & _). rewrite Hno in Hs. discriminate.
Qed.

(** X6: on a comment event only handler classes that the comment's
    command names are matched. *)
Theorem comment_restricts_handlers e pc :
  isinstance e comment_event_classes = true ->
  get_handlers_for_event e pc ⊆ get_handlers_for_comment (comment e).
Proof.
  intros Hc h Hh. apply handler_matched_iff in Hh as (_ & _ & Hr). now apply Hr.
Qed.

(** X7: the matcher looks at the jobs as a set: configurations with the
    same jobs, in whatever order and however often listed, match the
    same handler classes. *)
Theorem matcher_ignores_order_and_duplicates e pc pc' :
  (forall job, job ∈ jobs pc <-> job ∈ jobs pc') ->
  get_handlers_for_event e pc = get_handlers_for_event e pc'.
Proof.
  intros Hsame. apply set_eq. intros h. rewrite !handler_matched_iff.
  split; intros ((job & Hjob & Hrest) & Hs); (split; [|exact Hs]);
    exists job; (split; [now apply Hsame | exact Hrest]).
Qed.

(** *** The resolver *)

Lemma filter_sublist {A} (p : A -> bool) (l : list A) :
  List.filter p l `sublist_of` l.
Proof.
  induction l as [|x l IH]; simpl; [constructor|].
  destruct (p x); [now apply sublist_skip | now apply sublist_cons].
Qed.

Lemma filter_Forall {A} (p : A -> bool) (l : list A) :
  Forall (fun x => p x = true) (List.filter p l).
Proof.
  induction l as [|x l IH]; simpl; [constructor|].
  destruct (p x) eqn:E; [now constructor | exact IH].
Qed.

Lemma filter_keeps_Forall {A} (P : A -> Prop) (p : A -> bool) (l : list A) :
  Forall P l -> Forall P (List.filter p l).
Proof.
  induction 1 as [|x l Hx Hl IH]; simpl; [constructor|].
  destruct (p x); [now constructor | exact IH].
Qed.

Lemma filter_nil_iff {A} (p : A -> bool) (l : list A) :
  List.filter p l = [] <-> forall x, x ∈ l -> p x = false.
Proof.
  induction l as [|x l IH]; simpl.
  - split; [intros _ x Hx; inversion Hx | reflexivity].
  - destruct (p x) eqn:E.
    + split; [discriminate|]. intros Hall.
      rewrite (Hall x) in E by now left. discriminate.
    + rewrite IH. split.
      * intros Hall y [-> | Hy]%elem_of_cons; auto.
      * intros Hall y Hy. apply Hall. now right.
Qed.

(** X8: the resolver returns jobs of the configuration in the order of
    the configuration, all of them on the event's trigger; either the
    handler class runs all of them directly, or no job on the trigger is
    run by it directly and all of them require it. *)
Theorem resolved_configs_are_sound h e pc :
  get_config_for_handler_kls h e pc `sublist_of` jobs pc
  /\ Forall (fun job => trigger job = job_config_trigger_type e)
            (get_config_for_handler_kls h e pc)
  /\ (Forall (fun job => h ∈ MAP_JOB_TYPE_TO_HANDLER (type job))
             (get_config_for_handler_kls h e pc)
      \/ (Forall (fun job => h ∈ MAP_REQUIRED_JOB_TYPE_TO_HANDLER (type job))
                 (get_config_for_handler_kls h e pc)
          /\ forall job, job ∈ jobs pc ->
               trigger job = job_config_trigger_type e ->
               h ∉ MAP_JOB_TYPE_TO_HANDLER (type job))).
Proof.
  rewrite get_config_for_handler_kls_filter. cbn zeta.
  set (on := List.filter (on_trigger e) (jobs pc)).
  assert (Hon : on `sublist_of` jobs pc) by apply filter_sublist.
  assert (Ht : Forall (fun job => trigger job = job_config_trigger_type e) on).
  { eapply Forall_impl; [apply filter_Forall|]. intros job.
    apply on_trigger_true. }
  destruct (List.filter (direct_for h) on) as [|job0 direct] eqn:Ed.
  - split; [etransitivity; [apply filter_sublist | exact Hon]|].
    split; [now apply filter_keeps_Forall|].
    right. split.
    + eapply Forall_impl; [apply filter_Forall|]. intros job Hj.
      now apply bool_decide_eq_true in Hj.
    + intros job Hjob Htrig Hd.
      pose proof (proj1 (filter_nil_iff _ _) Ed job) as Hno.
      assert (Hin : job ∈ on).
      { apply list_elem_of_In, filter_In. split; [now apply list_elem_of_In|].
        now apply on_trigger_true. }
      specialize (Hno Hin). unfold direct_for in Hno.
      now apply bool_decide_eq_false in Hno.
  - rewrite <- Ed.
    split; [etransitivity; [apply filter_sublist | exact Hon]|].
    split; [now apply filter_keeps_Forall|].
    left. eapply Forall_impl; [apply filter_Forall|]. intros job Hj.
    now apply bool_decide_eq_true in Hj.
Qed.

(** X9: every handler class the matcher returns has a config: the
    resolver finds at least one job for it. *)
Theorem matched_handler_has_config e pc h :
  h ∈ get_handlers_for_event e pc ->
  get_config_for_handler_kls h e pc <> [].
Proof.
  intros ((job & Hjob & Ht & Hh) & _)%handler_matched_iff.
  rewrite get_config_for_handler_kls_filter. cbn zeta.
  assert (Hin : In job (List.filter (on_trigger e) (jobs pc))).
  { apply filter_In. split; [now apply list_elem_of_In|].
    now apply on_trigger_true. }
  destruct (List.filter (direct_for h) _) as [|j l] eqn:Ed; [|discriminate].
  destruct Hh as [Hd|Hr].
  - pose proof (proj1 (filter_nil_iff _ _) Ed job) as Hno.
    unfold direct_for in Hno. rewrite (bool_decide_eq_true_2 _ Hd) in Hno.
    discriminate Hno. now apply list_elem_of_In.
  - intros Er. pose proof (proj1 (filter_nil_iff _ _) Er job) as Hno.
    unfold required_for in Hno. rewrite (bool_decide_eq_true_2 _ Hr) in Hno.
    discriminate Hno. now apply list_elem_of_In.
Qed.

End Dispatch.

(** *** On the scenarios *)

Import Scenarios.

Lemma unsupported_event_matches_nothing_witness :
  get_handlers_for_event release_event
    (mkPackageConfig [copr_build_job; tests_job]) = ∅.
Proof.
  apply (unsupported_event_matches_nothing release_event).
  intros h. reflexivity.
Defined.

Lemma comment_restricts_handlers_witness :
  get_handlers_for_event build_comment
    (mkPackageConfig [copr_build_job; tests_job])
  ⊆ get_handlers_for_comment "please /packit build".
Proof.
  apply (comment_restricts_handlers build_comment). reflexivity.
Defined.

Lemma matcher_ignores_order_and_duplicates_witness :
  get_handlers_for_event pull_request
    (mkPackageConfig [tests_job; copr_build_job; tests_job])
  = get_handlers_for_event pull_request
      (mkPackageConfig [copr_build_job; tests_job]).
Proof.
  apply (matcher_ignores_order_and_duplicates pull_request).
  intros job. simpl. rewrite !elem_of_cons. tauto.
Defined.

Lemma matched_handler_has_config_witness :
  get_config_for_handler_kls CoprBuildHandler pull_request
    (mkPackageConfig [copr_build_job; tests_job]) <> [].
Proof.
  apply (matched_handler_has_config pull_request).
  apply (bool_decide_unpack
           (CoprBuildHandler
            ∈ get_handlers_for_event pull_request
                (mkPackageConfig [copr_build_job; tests_job]))).
  vm_compute. reflexivity.
Defined.

End MatchingFacts.

(** ** The dispatcher: what is submitted and what is acknowledged *)
Module DispatchFacts.
Import Jobs JobsFacts MatchingFacts.
Section Dispatch.

Context {JobType JobConfigTriggerType JobMetadata : Type}.
Context `{!EqDecision JobType, !EqDecision JobConfigTriggerType,
          !EqDecision JobMetadata}.
Context {Handler : Type} `{Countable Handler} {RawEvent : Type}.
Context {registry : @Registry JobType Handler _ _}.
Context {services : @Services JobType JobConfigTriggerType JobMetadata RawEvent}.

Local Abbreviation JobConfig := (@JobConfig JobType JobConfigTriggerType JobMetadata).
Local Abbreviation PackageConfig :=
  (@PackageConfig JobType JobConfigTriggerType JobMetadata).
Local Abbreviation Event := (@Event JobType JobConfigTriggerType JobMetadata).
Local Abbreviation TaskResults :=
  (@TaskResults JobType JobConfigTriggerType JobMetadata).
Local Abbreviation Submission :=
  (@Submission JobType JobConfigTriggerType JobMetadata Handler).

Implicit Types (e : Event) (pc : PackageConfig) (job : JobConfig)
  (backend : list Submission) (h : Handler).

(** The group [process_jobs] submits for a handler class. *)
Local Abbreviation group_of e pc :=
  (fun h => ApplyGroup (map (fun job_config => get_signature h e (Some job_config))
                            (get_config_for_handler_kls h e pc))).

Lemma process_handlers_rejected_after e pc (accepted : list Handler) h
    (rest : list Handler) (job_configs : list JobConfig) backend :
  (forall a, In a accepted ->
     check_and_report e (project e) (get_config_for_handler_kls a e pc) = true) ->
  check_and_report e (project e) (get_config_for_handler_kls h e pc) = false ->
  process_handlers e pc (accepted ++ h :: rest) job_configs backend
  = (not_allowlisted e (get_config_for_handler_kls h e pc),
     backend ++ map (group_of e pc) accepted).
Proof.
  revert job_configs backend.
  induction accepted as [|a accepted IH]; intros job_configs backend Hok Hno;
    simpl.
  - now rewrite Hno, app_nil_r.
  - rewrite (Hok a) by (now left). simpl.
    rewrite IH by (auto; intros a' Ha'; apply Hok; now right).
    now rewrite <- app_assoc.
Qed.

Lemma set_iter_nonempty_app (s : gset Handler) (l1 l2 : list Handler) h :
  set_iter s = l1 ++ h :: l2 -> s <> ∅.
Proof.
  intros Hs ->. pose proof (set_iter_elements (∅ : gset Handler)) as Hp.
  rewrite Hs, elements_empty in Hp. apply Permutation_nil_r in Hp.
  now destruct l1.
Qed.

(** X10: when the gate accepts the first handler classes of the loop and
    then rejects one, [process_jobs] returns the failed results of the
    rejected handler class only, while the groups of the handler classes
    accepted before it have been submitted and stay submitted; nothing
    is submitted for the rejected one and those after it. *)
Theorem rejection_keeps_earlier_groups e pc (accepted : list Handler) h
    (rest : list Handler) backend :
  package_config e = Some pc ->
  set_iter (get_handlers_for_event e pc) = accepted ++ h :: rest ->
  (forall a, In a accepted ->
     check_and_report e (project e) (get_config_for_handler_kls a e pc) = true) ->
  check_and_report e (project e) (get_config_for_handler_kls h e pc) = false ->
  process_jobs e backend
  = (map (fun job_config =>
            create_from false "Account is not allowlisted!" (Some job_config) e)
         (get_config_for_handler_kls h e pc),
     backend ++ map (group_of e pc) accepted).
Proof.
  intros Hpc Hiter Hok Hno. unfold process_jobs. rewrite Hpc.
  rewrite (bool_decide_eq_false_2 _ (set_iter_nonempty_app _ _ _ _ Hiter)).
  rewrite Hiter. now apply process_handlers_rejected_after.
Qed.

Lemma process_handlers_submits_prefix e pc (hs : list Handler)
    (job_configs : list JobConfig) backend :
  exists submitted : list Handler,
    submitted `prefix_of` hs
    /\ snd (process_handlers e pc hs job_configs backend)
       = backend ++ map (group_of e pc) submitted.
Proof.
  revert job_configs backend.
  induction hs as [|h hs IH]; intros job_configs backend; simpl.
  - exists []. split; [reflexivity | now rewrite app_nil_r].
  - destruct (check_and_report e (project e) _); simpl.
    + destruct (IH (get_config_for_handler_kls h e pc)
                   (backend ++ [ApplyGroup (signatures_for h e
                                  (get_config_for_handler_kls h e pc))]))
        as (submitted & Hpre & Hsnd).
      exists (h :: submitted). split; [now apply prefix_cons|].
      rewrite Hsnd. simpl. now rewrite <- app_assoc.
    + exists []. split; [apply prefix_nil | now rewrite app_nil_r].
Qed.

(** X11: [process_jobs] only ever appends to what the backend has: the
    groups of the handler classes of an initial stretch of the loop, one
    group each, in the order of the loop.  Without a package
    configuration it submits nothing. *)
Theorem process_jobs_appends_groups e backend :
  match package_config e with
  | None => snd (process_jobs e backend) = backend
  | Some pc =>
      exists submitted : list Handler,
        submitted `prefix_of` set_iter (get_handlers_for_event e pc)
        /\ snd (process_jobs e backend)
           = backend ++ map (group_of e pc) submitted
  end.
Proof.
  unfold process_jobs. destruct (package_config e) as [pc|]; [|reflexivity].
  destruct (bool_decide (get_handlers_for_event e pc = ∅)).
  - exists []. split; [apply prefix_nil | simpl; now rewrite app_nil_r].
  - apply process_handlers_submits_prefix.
Qed.

Lemma process_handlers_uniform e pc (hs : list Handler)
    (job_configs : list JobConfig) backend :
  fst (process_handlers e pc hs job_configs backend)
  = job_created e (match last hs with
                   | Some h => get_config_for_handler_kls h e pc
                   | None => job_configs
                   end)
  \/ exists h, h ∈ hs
       /\ check_and_report e (project e) (get_config_for_handler_kls h e pc)
          = false
       /\ fst (process_handlers e pc hs job_configs backend)
          = not_allowlisted e (get_config_for_handler_kls h e pc).
Proof.
  revert job_configs backend.
  induction hs as [|h hs IH]; intros job_configs backend; simpl; [now left|].
  destruct (check_and_report e (project e) _) eqn:Egate; simpl.
  - destruct (IH (get_config_for_handler_kls h e pc)
                 (backend ++ [ApplyGroup (signatures_for h e
                                (get_config_for_handler_kls h e pc))]))
      as [Hok|(h' & Hin & Hno & Hres)].
    + left. rewrite Hok. destruct hs as [|h' hs']; [reflexivity|].
      change (last (h :: h' :: hs')) with (last (h' :: hs')).
      destruct (last (h' :: hs')) eqn:El; [reflexivity|].
      now apply last_None in El.
    + right. exists h'. split; [now right | now split].
  - right. exists h. split; [now left | now split].
Qed.

(** X12: the results of [process_jobs] never mix: either all of them
    are successes, or all of them are the failures "Account is not
    allowlisted!" of one handler class that the gate rejected; and all
    of them are about the event dispatched. *)
Theorem acknowledgments_are_uniform e backend :
  Forall (fun result => event result = e) (fst (process_jobs e backend))
  /\ (Forall (fun result => success result = true)
             (fst (process_jobs e backend))
      \/ exists pc h,
           package_config e = Some pc
           /\ h ∈ get_handlers_for_event e pc
           /\ check_and_report e (project e)
                (get_config_for_handler_kls h e pc) = false
           /\ fst (process_jobs e backend)
              = map (fun job_config =>
                       create_from false "Account is not allowlisted!"
                                   (Some job_config) e)
                    (get_config_for_handler_kls h e pc)).
Proof.
  unfold process_jobs. destruct (package_config e) as [pc|]; simpl.
  - destruct (bool_decide (get_handlers_for_event e pc = ∅)); simpl;
      [split; [constructor | left; constructor]|].
    destruct (process_handlers_uniform e pc
                (set_iter (get_handlers_for_event e pc)) [] backend)
      as [Hok|(h & Hin & Hno & Hres)].
    + rewrite Hok. unfold job_created. split.
      * apply Forall_map. now apply Forall_true.
      * left. apply Forall_map. now apply Forall_true.
    + rewrite Hres. unfold not_allowlisted. split.
      * apply Forall_map. now apply Forall_true.
      * right. exists pc, h. split; [reflexivity|].
        split; [now apply in_set_iter|]. now split.
  - split; [now repeat constructor | left; now repeat constructor].
Qed.

Lemma nonempty_snoc {A} (l : list A) :
  l <> [] -> exists (earlier : list A) (x : A), l = earlier ++ [x].
Proof.
  intros Hl. destruct (exists_last Hl) as (earlier & x & ->).
  now exists earlier, x.
Qed.

(** X13: when the gate accepts whatever it is asked and some handler
    class is matched, [process_jobs] acknowledges at least one job, and
    submits one group for each matched handler class, none of them
    empty. *)
Theorem accepted_dispatch_is_never_empty e pc backend :
  package_config e = Some pc ->
  get_handlers_for_event e pc <> ∅ ->
  (forall job_configs, check_and_report e (project e) job_configs = true) ->
  fst (process_jobs e backend) <> []
  /\ exists groups,
       snd (process_jobs e backend) = backend ++ map ApplyGroup groups
       /\ Forall (fun signatures => signatures <> []) groups
       /\ List.length groups = size (get_handlers_for_event e pc).
Proof.
  intros Hpc Hne Hgate. unfold process_jobs. rewrite Hpc.
  rewrite (bool_decide_eq_false_2 _ Hne).
  assert (Hiter : set_iter (get_handlers_for_event e pc) <> []).
  { intros E. pose proof (set_iter_elements (get_handlers_for_event e pc)) as Hp.
    rewrite E in Hp. symmetry in Hp. apply Permutation_nil_r in Hp.
    now apply elements_empty_inv, leibniz_equiv in Hp. }
  destruct (nonempty_snoc _ Hiter) as (earlier & h_last & Hsplit).
  rewrite Hsplit, process_handlers_all_accepted by (intros; apply Hgate).
  assert (Hin : forall h, In h (earlier ++ [h_last]) ->
                          h ∈ get_handlers_for_event e pc).
  { intros h Hh. apply in_set_iter. rewrite Hsplit. now apply list_elem_of_In. }
  simpl. split.
  - unfold job_created.
    pose proof (matched_handler_has_config e pc h_last
                  (Hin h_last ltac:(apply in_or_app; right; now left))) as Hc.
    now destruct (get_config_for_handler_kls h_last e pc).
  - exists (map (fun h => signatures_for h e (get_config_for_handler_kls h e pc))
                (earlier ++ [h_last])).
    split; [now rewrite map_map|]. split.
    + apply Forall_map, Forall_forall. intros h Hh%list_elem_of_In.
      pose proof (matched_handler_has_config e pc h (Hin h Hh)) as Hc.
      unfold signatures_for.
      now destruct (get_config_for_handler_kls h e pc).
    + rewrite length_map, <- Hsplit.
      now rewrite (set_iter_elements (get_handlers_for_event e pc)).
Qed.

(** X14: a message that fails the topic filter, does not parse, fails
    its pre-check, or comes from a private repository whose namespace is
    not enabled is dropped: [process_message] returns the empty list and
    submits nothing. *)
Theorem gated_message_is_dropped (raw : RawEvent)
    (topic source : option string) backend :
  topic_filter_passes topic = false
  \/ parse_event source raw = None
  \/ (exists event_object,
        parse_event source raw = Some event_object
        /\ (pre_check event_object = false
            \/ exists p, project event_object = Some p
                 /\ is_private p = true
                 /\ (hostname p +:+ "/" +:+ namespace p)
                    ∉ enabled_private_namespaces)) ->
  process_message raw topic source backend = ([], backend).
Proof.
  unfold process_message.
  intros [->|[Hparse|(event_object & Hparse & Hgate)]]; [reflexivity | |].
  - destruct (topic_filter_passes topic); simpl; [|reflexivity].
    now rewrite Hparse.
  - destruct (topic_filter_passes topic); simpl; [|reflexivity].
    rewrite Hparse. destruct Hgate as [->|(p & Hp & Hprivate & Hns)];
      [reflexivity|].
    destruct (pre_check event_object); simpl; [|reflexivity].
    unfold privacy_gate_passes. rewrite Hp, Hprivate.
    now rewrite (bool_decide_eq_false_2 _ Hns).
Qed.

End Dispatch.

(** *** On the scenarios *)

Import Scenarios.

Lemma rejection_keeps_earlier_groups_witness :
  process_jobs (services := Scenarios.services (fun _ => None) reject_tests)
               pull_request []
  = ([create_from false "Account is not allowlisted!" (Some tests_job)
                  pull_request],
     [ApplyGroup [get_signature CoprBuildHandler pull_request
                                (Some copr_build_job)]]).
Proof.
  etransitivity.
  - apply (rejection_keeps_earlier_groups
             (services := Scenarios.services (fun _ => None) reject_tests)
             pull_request (mkPackageConfig [copr_build_job; tests_job])
             [CoprBuildHandler] TestingFarmHandler [] []);
      [reflexivity | vm_compute; reflexivity
       | intros a [<-|[]]; vm_compute; reflexivity | vm_compute; reflexivity].
  - vm_compute. reflexivity.
Defined.

Lemma accepted_dispatch_is_never_empty_witness :
  fst (process_jobs (services := Scenarios.services (fun _ => None) accept_all)
                    pull_request []) <> [].
Proof.
  refine (proj1 (accepted_dispatch_is_never_empty
                   (services := Scenarios.services (fun _ => None) accept_all)
                   pull_request (mkPackageConfig [copr_build_job; tests_job])
                   [] eq_refl _ (fun _ => eq_refl))).
  apply (bool_decide_unpack
           (get_handlers_for_event pull_request
              (mkPackageConfig [copr_build_job; tests_job]) <> ∅)).
  vm_compute. reflexivity.
Defined.

Lemma gated_message_is_dropped_witness :
  process_message
    (services := Scenarios.services (fun _ => Some private_pull_request)
                                    accept_all)
    "payload" None None []
  = ([], []).
Proof.
  apply (gated_message_is_dropped
           (services := Scenarios.services (fun _ => Some private_pull_request)
                                           accept_all)).
  right. right. exists private_pull_request. split; [reflexivity|].
  right. exists secret_repo. repeat split. vm_compute. set_solver.
Defined.

End DispatchFacts.

(** ** The reporter: targets, budget, and reporting many checks *)
Module ReporterFacts.
Import Reporting.
Section Reporter.

Context {forge : Forge}.

Implicit Types (w : World) (r : StatusReporter) (state : CommitStatus)
  (description check_name url : string) (e : Exception).

Ltac unfold_all :=
  unfold report, set_statuses, set_status, try_except, on_status_error,
    post_commit_status, project_with_commit,
    __add_commit_comment_with_status, __set_pull_request_status,
    call_get_pr, returned, bind, get_self, put_self, log, ret, raise.

Ltac cases :=
  repeat (cbn [fst snd self calls project commit_sha pr_id
               _project_with_commit negb];
          match goal with
          | |- context [match ?x with _ => _ end] => destruct x eqn:?
          end).

(** X15: [project_with_commit] resolves the project once: after a call
    that returned, the reporter remembers the project, and a further
    call returns the same project without any call on the forge and
    without changing anything. *)
Theorem project_with_commit_is_cached w w1 (p : GitProject) :
  project_with_commit w = (inr p, w1) ->
  _project_with_commit (self w1) = Some p
  /\ project_with_commit w1 = (inr p, w1).
Proof.
  destruct w as [[proj cache sha pr] cs].
  unfold project_with_commit, call_get_pr, bind, get_self, put_self, log,
    ret, raise. simpl.
  destruct cache as [q|]; simpl.
  - intros [= <- <-]. now split.
  - destruct (kind proj), pr as [id|]; simpl;
      try (intros [= <- <-]; now split).
    destruct (get_pr_result proj id) as [e|pull]; simpl; [discriminate|].
    intros [= <- <-]. now split.
Qed.

(** X16: where the status goes.  A reporter that has not resolved its
    project yet posts on the project itself, without asking the forge,
    unless the project is a GitLab one and there is a pull-request id:
    then it asks for the pull request and posts on its source project,
    and when that request fails, the failure propagates and nothing is
    remembered. *)
Theorem project_with_commit_target w :
  _project_with_commit (self w) = None ->
  (kind (project (self w)) <> GitlabProject \/ pr_id (self w) = None ->
   fst (project_with_commit w) = inr (project (self w))
   /\ calls (snd (project_with_commit w)) = calls w)
  /\ (forall id pr,
        kind (project (self w)) = GitlabProject ->
        pr_id (self w) = Some id ->
        get_pr_result (project (self w)) id = inr pr ->
        fst (project_with_commit w) = inr (source_project pr)
        /\ calls (snd (project_with_commit w))
           = calls w ++ [get_pr (project (self w)) id])
  /\ (forall id e,
        kind (project (self w)) = GitlabProject ->
        pr_id (self w) = Some id ->
        get_pr_result (project (self w)) id = inl e ->
        project_with_commit w
        = (inl e, mkWorld (self w) (calls w ++ [get_pr (project (self w)) id]))).
Proof.
  destruct w as [[proj cache sha pr] cs]. simpl. intros ->.
  unfold project_with_commit, call_get_pr, bind, get_self, put_self, log,
    ret, raise. simpl.
  split; [|split].
  - intros [Hk | ->]; [|now destruct (kind proj)].
    destruct (kind proj), pr; try congruence; now split.
  - intros id pull -> -> Hpr. simpl. now rewrite Hpr.
  - intros id e -> -> Hpr. simpl. now rewrite Hpr.
Qed.

(** *** The calls of one [set_status] *)

Lemma extends_refl w : extends w w [].
Proof. unfold extends. now rewrite app_nil_r. Qed.

Lemma extends_trans w w1 w2 (n1 n2 : list Call) :
  extends w w1 n1 -> extends w1 w2 n2 -> extends w w2 (n1 ++ n2).
Proof.
  unfold extends. intros (Hc1 & Hp1 & Hs1 & Hi1) (Hc2 & Hp2 & Hs2 & Hi2).
  rewrite Hc2, Hc1, Hp2, Hs2, Hi2, <- app_assoc. now repeat split.
Qed.

Lemma checks_posted_app (cs ds : list Call) :
  checks_posted (cs ++ ds) = checks_posted cs ++ checks_posted ds.
Proof. apply flat_map_app. Qed.

Lemma within_app (n1 n2 : list Call) (s1 c1 f1 s2 c2 f2 : nat) :
  within n1 s1 c1 f1 -> within n2 s2 c2 f2 ->
  within (n1 ++ n2) (s1 + s2) (c1 + c2) (f1 + f2).
Proof.
  unfold within. intros (? & ? & ?) (? & ? & ?).
  rewrite checks_posted_app, ReportingFacts.comments_posted_app,
    ReportingFacts.flags_set_app, !length_app. lia.
Qed.

Lemma post_commit_status_adds state description check_name url w :
  exists new,
    extends w (snd (post_commit_status state description check_name url w)) new
    /\ within new 1 0 0.
Proof.
  destruct w as [[proj cache sha pr] cs].
  unfold post_commit_status, project_with_commit, call_get_pr, returned, bind,
    get_self, put_self, log, ret, raise, extends, within. simpl.
  destruct cache as [q|]; simpl.
  - destruct (set_commit_status_result _ _ _ _ _ _); simpl;
      (eexists; split; [repeat split; reflexivity | simpl; lia]).
  - destruct (kind proj), pr as [id|]; simpl;
      try (destruct (set_commit_status_result _ _ _ _ _ _); simpl;
           (eexists; split; [repeat split; reflexivity | simpl; lia])).
    destruct (get_pr_result proj id) as [e|pull]; simpl.
    + eexists; split; [repeat split; reflexivity | simpl; lia].
    + destruct (set_commit_status_result _ _ _ _ _ _); simpl;
        (eexists; split;
         [repeat split; rewrite <- app_assoc; reflexivity | simpl; lia]).
Qed.

Lemma fallback_adds state description check_name url w :
  exists new,
    extends w
      (snd (__add_commit_comment_with_status state description check_name url w))
      new
    /\ within new 0 1 0.
Proof.
  unfold __add_commit_comment_with_status, returned, bind, get_self, log, ret,
    raise, extends, within. simpl.
  destruct (commit_comment_result _ _ _); simpl;
    (eexists; split; [repeat split; reflexivity | simpl; lia]).
Qed.

Lemma mirror_adds check_name description url state w :
  exists new,
    extends w
      (snd (__set_pull_request_status check_name description url state w)) new
    /\ within new 0 0 1.
Proof.
  destruct w as [[proj cache sha pr] cs].
  unfold __set_pull_request_status, call_get_pr, returned, bind, get_self,
    log, ret, raise, extends, within. simpl.
  destruct pr as [id|]; simpl.
  - destruct (get_pr_result proj id) as [e|pull]; simpl.
    + eexists; split; [repeat split; reflexivity | simpl; lia].
    + destruct (has_set_flag pull && _); simpl.
      * destruct (set_flag_result _ _ _ _ _ _ _); simpl;
          (eexists; split;
           [repeat split; rewrite <- app_assoc; reflexivity | simpl; lia]).
      * eexists; split; [repeat split; reflexivity | simpl; lia].
  - exists []. split; [repeat split; now rewrite app_nil_r | simpl; lia].
Qed.

Lemma on_status_error_adds state description check_name url e w :
  exists new,
    extends w (snd (on_status_error state description check_name url e w)) new
    /\ within new 0 1 0.
Proof.
  destruct (fallback_adds state description check_name url w)
    as (new & Hext & Hin).
  unfold on_status_error. destruct e as [code| |what].
  - unfold bind at 1. destruct (negb (bool_decide (code = Some 400))).
    + destruct (__add_commit_comment_with_status _ _ _ _ w) as [[e'|[]] w1];
        [now exists new|].
      exists new. destruct (negb (bool_decide (code ∈ accepted_codes)));
        now split.
    + exists []. unfold ret at 1. cbn iota beta.
      destruct (negb (bool_decide (code ∈ accepted_codes)));
        (split; [apply extends_refl | unfold within; simpl; lia]).
  - now exists new.
  - exists []. split; [apply extends_refl | unfold within; simpl; lia].
Qed.

(** X17: [set_status] never retargets the reporter and never takes a
    call back: project, commit and pull-request id are as before, and
    the calls made before are still there, in front of the new ones.  A
    call of [set_status] posts at most one status, at most one commit
    comment and at most one flag. *)
Theorem set_status_budget state description check_name url w :
  exists new,
    extends w (snd (set_status state description check_name url w)) new
    /\ (List.length (checks_posted new) <= 1)%nat
    /\ (List.length (comments_posted new) <= 1)%nat
    /\ (List.length (flags_set new) <= 1)%nat.
Proof.
  unfold set_status, bind at 1 2, get_self, try_except.
  set (url' := fixed_url (self w) url).
  destruct (post_commit_status_adds state description check_name url' w)
    as (n1 & Hext1 & Hin1).
  destruct (post_commit_status state description check_name url' w)
    as [[e|[]] w1]; cbn [snd] in Hext1.
  - destruct (on_status_error_adds state description check_name url' e w1)
      as (n2 & Hext2 & Hin2).
    destruct (on_status_error state description check_name url' e w1)
      as [[e'|[]] w2]; cbn [snd] in Hext2.
    + exists (n1 ++ n2). split; [now apply (extends_trans w w1)|].
      apply (within_app _ _ 1 0 0 0 1 0 Hin1) in Hin2. unfold within in Hin2.
      simpl in *. lia.
    + destruct (mirror_adds check_name description url' state w2)
        as (n3 & Hext3 & Hin3).
      exists ((n1 ++ n2) ++ n3). split.
      * apply (extends_trans w w2); [now apply (extends_trans w w1)|].
        exact Hext3.
      * apply (within_app _ _ 1 0 0 0 1 0 Hin1) in Hin2.
        apply (within_app _ _ _ _ _ 0 0 1 Hin2) in Hin3.
        unfold within in Hin3. simpl in *. lia.
  - destruct (mirror_adds check_name description url' state w1)
      as (n3 & Hext3 & Hin3).
    exists (n1 ++ n3). split; [now apply (extends_trans w w1)|].
    apply (within_app _ _ 1 0 0 0 0 1 Hin1) in Hin3. unfold within in Hin3.
    simpl in *. lia.
Qed.

(** X18: on a Pagure project an empty url is the placeholder url:
    [set_status] with no url does what it does with the fixed CentOS
    Stream url, so that no call carries an empty url. *)
Theorem pagure_empty_url_is_placeholder state description check_name w :
  kind (project (self w)) = PagureProject ->
  set_status state description check_name "" w
  = set_status state description check_name PAGURE_PLACEHOLDER_URL w.
Proof.
  intros Hk. unfold set_status, bind, get_self, fixed_url.
  now rewrite Hk.
Qed.

(** *** [report] *)

Lemma bind_ret (m : M unit) w : bind m (fun _ => ret tt) w = m w.
Proof. unfold bind, ret. now destruct (m w) as [[e|[]] w']. Qed.

(** X19: [report] with nothing to report (no names, an empty name, an
    empty list) calls nothing and returns; with one name, alone or in a
    list, it is [set_status] for that name. *)
Theorem report_none_or_one state description url w :
  (forall check_names,
     no_checks check_names = true ->
     report state description url check_names w = (inr tt, w))
  /\ (forall check_name,
        check_name <> "" ->
        report state description url (CheckName check_name) w
        = set_status state description check_name url w)
  /\ (forall check_name,
        report state description url (CheckNameList [check_name]) w
        = set_status state description check_name url w).
Proof.
  split; [|split].
  - intros check_names Hno. unfold report. now rewrite Hno.
  - intros check_name Hne. unfold report. simpl.
    apply String.eqb_neq in Hne. rewrite Hne. apply bind_ret.
  - intros check_name. unfold report. simpl. apply bind_ret.
Qed.

Lemma set_statuses_app state description url (l1 l2 : list string) w :
  set_statuses state description url (l1 ++ l2) w
  = match set_statuses state description url l1 w with
    | (inr _, w1) => set_statuses state description url l2 w1
    | (inl e, w1) => (inl e, w1)
    end.
Proof.
  revert w. induction l1 as [|c l1 IH]; intros w; cbn [set_statuses app].
  { reflexivity. }
  unfold bind at 1 2.
  destruct (set_status state description c url w) as [[e|[]] w1];
    [reflexivity | apply IH].
Qed.

(** X20: [report] stops at the first check that raises: a report that
    raises does so with the same exception and the same calls however
    many checks follow in the list; none of them is attempted. *)
Theorem report_stops_at_failure state description url
    (checks later : list string) e w w1 :
  report state description url (CheckNameList checks) w = (inl e, w1) ->
  report state description url (CheckNameList (checks ++ later)) w
  = (inl e, w1).
Proof.
  unfold report. destruct checks as [|c checks]; [discriminate|].
  cbn [no_checks checks_of app]. intros Hfail.
  change (c :: checks ++ later) with ((c :: checks) ++ later).
  now rewrite set_statuses_app, Hfail.
Qed.

Section Obliging.

(** A forge that answers every request, status update and flag. *)
Hypothesis pull_requests :
  forall p id, exists pr, get_pr_result p id = inr pr.
Hypothesis statuses :
  forall p commit state url description check_name,
    set_commit_status_result p commit state url description check_name = None.
Hypothesis flags :
  forall p id username comment url status uid,
    set_flag_result p id username comment url status uid = None.

Lemma post_commit_status_posts state description check_name url w :
  exists w1,
    post_commit_status state description check_name url w = (inr tt, w1)
    /\ checks_posted (calls w1) = checks_posted (calls w) ++ [check_name].
Proof.
  destruct w as [[proj cache sha pr] cs].
  unfold post_commit_status, project_with_commit, call_get_pr, returned, bind,
    get_self, put_self, log, ret, raise. simpl.
  destruct cache as [q|]; simpl.
  - rewrite statuses. eexists. split; [reflexivity|]. simpl.
    now rewrite checks_posted_app.
  - destruct (kind proj), pr as [id|]; simpl;
      try (rewrite statuses; eexists; split; [reflexivity|]; simpl;
           now rewrite checks_posted_app).
    destruct (pull_requests proj id) as [pull ->]. simpl.
    rewrite statuses. eexists. split; [reflexivity|]. simpl.
    now rewrite !checks_posted_app, app_nil_r.
Qed.

Lemma mirror_returns check_name description url state w :
  exists w2,
    __set_pull_request_status check_name description url state w = (inr tt, w2)
    /\ checks_posted (calls w2) = checks_posted (calls w).
Proof.
  destruct w as [[proj cache sha pr] cs].
  unfold __set_pull_request_status, call_get_pr, returned, bind, get_self,
    log, ret, raise. simpl.
  destruct pr as [id|]; simpl; [|now eexists].
  destruct (pull_requests proj id) as [pull ->]. simpl.
  destruct (has_set_flag pull && _); simpl.
  - rewrite flags. eexists. split; [reflexivity|]. simpl.
    now rewrite !checks_posted_app, !app_nil_r.
  - eexists. split; [reflexivity|]. simpl.
    now rewrite checks_posted_app, app_nil_r.
Qed.

Lemma set_status_posts_check state description check_name url w :
  exists w',
    set_status state description check_name url w = (inr tt, w')
    /\ checks_posted (calls w') = checks_posted (calls w) ++ [check_name].
Proof.
  unfold set_status, bind, get_self, try_except.
  destruct (post_commit_status_posts state description check_name
              (fixed_url (self w) url) w) as (w1 & -> & Hposted).
  destruct (mirror_returns check_name description (fixed_url (self w) url)
              state w1) as (w2 & -> & Hsame).
  exists w2. split; [reflexivity|]. now rewrite Hsame.
Qed.

Lemma set_statuses_post_checks state description url (checks : list string) w :
  exists w',
    set_statuses state description url checks w = (inr tt, w')
    /\ checks_posted (calls w') = checks_posted (calls w) ++ checks.
Proof.
  revert w. induction checks as [|c checks IH]; intros w; simpl.
  - exists w. now rewrite app_nil_r.
  - destruct (set_status_posts_check state description c url w)
      as (w1 & Hrun & Hposted).
    destruct (IH w1) as (w' & Hrest & Hall).
    exists w'. unfold bind. rewrite Hrun. split; [exact Hrest|].
    now rewrite Hall, Hposted, <- app_assoc.
Qed.

(** X21: on a forge that answers every request, [report] returns
    normally and has posted one status per check name, in the order of
    the names, whether they came as one name or as a list. *)
Theorem report_posts_each_check state description url check_names w :
  exists w',
    report state description url check_names w = (inr tt, w')
    /\ checks_posted (calls w')
       = checks_posted (calls w)
         ++ (if no_checks check_names then [] else checks_of check_names).
Proof.
  unfold report. destruct (no_checks check_names).
  - exists w. now rewrite app_nil_r.
  - apply set_statuses_post_checks.
Qed.

End Obliging.

End Reporter.

(** *** On the scenarios *)

Import Scenarios.

Lemma project_with_commit_is_cached_witness :
  let forge := gitlab_answering None in
  let resolved := snd (project_with_commit reporter_on_merge_request) in
  _project_with_commit (self resolved) = Some fork
  /\ project_with_commit resolved = (inr fork, resolved).
Proof.
  intros forge resolved.
  apply (project_with_commit_is_cached (forge := forge)
           reporter_on_merge_request). reflexivity.
Defined.

Lemma project_with_commit_target_witness :
  let forge := gitlab_answering None in
  fst (project_with_commit reporter_on_merge_request) = inr fork
  /\ calls (snd (project_with_commit reporter_on_merge_request))
     = [get_pr upstream 7].
Proof.
  intros forge.
  exact (proj1 (proj2 (project_with_commit_target (forge := forge)
                         reporter_on_merge_request eq_refl))
           7 merge_request eq_refl eq_refl eq_refl).
Defined.

Lemma pagure_empty_url_is_placeholder_witness :
  let forge := gitlab_answering None in
  set_status success_state "RPMs built" "rpm-build" "" reporter_on_pagure
  = set_status success_state "RPMs built" "rpm-build"
      "https://wiki.centos.org/Manuals/ReleaseNotes/CentOSStream"
      reporter_on_pagure.
Proof.
  intros forge.
  exact (pagure_empty_url_is_placeholder (forge := forge) success_state
           "RPMs built" "rpm-build" reporter_on_pagure eq_refl).
Defined.

Lemma report_stops_at_failure_witness :
  let forge := gitlab_answering (Some (OtherException "connection lost")) in
  report success_state "RPMs built" "https://ci/42"
         (CheckNameList ["rpm-build"; "testing-farm"])
         reporter_on_merge_request
  = report success_state "RPMs built" "https://ci/42"
           (CheckNameList ["rpm-build"]) reporter_on_merge_request.
Proof.
  intros forge.
  etransitivity.
  - apply (report_stops_at_failure (forge := forge) success_state
             "RPMs built" "https://ci/42" ["rpm-build"] ["testing-farm"]
             (OtherException "connection lost")
             reporter_on_merge_request
             (snd (report (forge := forge) success_state "RPMs built"
                          "https://ci/42" (CheckNameList ["rpm-build"])
                          reporter_on_merge_request))).
    vm_compute. reflexivity.
  - vm_compute. reflexivity.
Defined.

Lemma report_posts_each_check_witness :
  let forge := gitlab_answering None in
  exists w',
    report success_state "RPMs built" "https://ci/42"
           (CheckNameList ["rpm-build"; "testing-farm"])
           reporter_on_merge_request = (inr tt, w')
    /\ checks_posted (calls w') = ["rpm-build"; "testing-farm"].
Proof.
  intros forge.
  apply (report_posts_each_check (forge := forge)
           (fun _ _ => ex_intro _ merge_request eq_refl)
           (fun _ _ _ _ _ _ => eq_refl)
           (fun _ _ _ _ _ _ _ => eq_refl)
           success_state "RPMs built" "https://ci/42"
           (CheckNameList ["rpm-build"; "testing-farm"])
           reporter_on_merge_request).
Defined.

End ReporterFacts.

(** ** Reporting by comment *)
Module CommentingFacts.
Import Reporting Commenting.
Section Commenting.

Context {forge : Forge} {comment_forge : CommentForge}.

Implicit Types (w : Commenting.World) (body : string).

(** What a call returns, as a result of the computation. *)
Local Abbreviation outcome r :=
  (match r with None => inr tt | Some e => inl e end : Exception + unit).

(** X22: where [comment] writes.  Without a pull-request id, and with
    the id [0], the body becomes a commit comment on the reporter's
    commit and the forge is not asked for any pull request.  With any
    other id the pull request is fetched and commented; when fetching
    fails, the failure propagates and no comment is made. *)
Theorem comment_destination body w :
  (pr_id (Commenting.self w) = None \/ pr_id (Commenting.self w) = Some 0 ->
   comment body w
   = (outcome (commit_comment_result (project (Commenting.self w))
                 (commit_sha (Commenting.self w)) body),
      Commenting.mkWorld (Commenting.self w)
        (Commenting.calls w
         ++ [inl (commit_comment (project (Commenting.self w))
                    (commit_sha (Commenting.self w)) body)])))
  /\ (forall id,
        pr_id (Commenting.self w) = Some id -> id <> 0 ->
        (forall pr,
           get_pr_result (project (Commenting.self w)) id = inr pr ->
           comment body w
           = (outcome (pr_comment_result (project (Commenting.self w)) id body),
              Commenting.mkWorld (Commenting.self w)
                (Commenting.calls w
                 ++ [inl (get_pr (project (Commenting.self w)) id);
                     inr (pr_comment (project (Commenting.self w)) id body)])))
        /\ (forall e,
              get_pr_result (project (Commenting.self w)) id = inl e ->
              comment body w
              = (inl e,
                 Commenting.mkWorld (Commenting.self w)
                   (Commenting.calls w
                    ++ [inl (get_pr (project (Commenting.self w)) id)])))).
Proof.
  unfold comment, Commenting.bind, Commenting.get_self, Commenting.log,
    Commenting.returned, Commenting.ret, Commenting.raise.
  split.
  - intros [-> | ->]; simpl; now destruct (commit_comment_result _ _ _).
  - intros id -> Hid. apply Z.eqb_neq in Hid. rewrite Hid. simpl. split.
    + intros pr ->. simpl. rewrite <- app_assoc.
      now destruct (pr_comment_result _ _ _).
    + now intros e ->.
Qed.

(** X23: [report_status_by_comment] makes one comment for all the
    checks together, however many there are, none included: the calls
    it adds hold at most one comment.  Handed no check names at all it
    raises a [TypeError] before calling anything. *)
Theorem one_comment_for_all_checks (state : CommitStatus)
    (url description : string) (check_names : CheckNames) w :
  report_status_by_comment state url NoCheckNames description w
  = (inl (OtherException "TypeError"), w)
  /\ exists new,
       Commenting.calls
         (snd (report_status_by_comment state url check_names description w))
       = Commenting.calls w ++ new
       /\ (List.length (comments_made new) <= 1)%nat
       /\ (check_names <> NoCheckNames ->
           (pr_id (Commenting.self w) = None
            \/ pr_id (Commenting.self w) = Some 0
            \/ exists id pr, pr_id (Commenting.self w) = Some id
                 /\ get_pr_result (project (Commenting.self w)) id = inr pr) ->
           List.length (comments_made new) = 1%nat).
Proof.
  split; [reflexivity|].
  assert (Hcomment : forall body,
    exists new,
      Commenting.calls (snd (comment body w)) = Commenting.calls w ++ new
      /\ (List.length (comments_made new) <= 1)%nat
      /\ ((pr_id (Commenting.self w) = None
           \/ pr_id (Commenting.self w) = Some 0
           \/ exists id pr, pr_id (Commenting.self w) = Some id
                /\ get_pr_result (project (Commenting.self w)) id = inr pr) ->
          List.length (comments_made new) = 1%nat)).
  { intros body.
    unfold comment, Commenting.bind, Commenting.get_self, Commenting.log,
      Commenting.returned, Commenting.ret, Commenting.raise. simpl.
    destruct (pr_id (Commenting.self w)) as [id|] eqn:Eid; simpl.
    - destruct (id =? 0)%Z eqn:E0; simpl.
      + destruct (commit_comment_result _ _ _); simpl;
          (eexists; split; [reflexivity|]; split; [simpl; lia | reflexivity]).
      + destruct (get_pr_result (project (Commenting.self w)) id)
          as [e|pr] eqn:Epr; simpl.
        * eexists. split; [reflexivity|]. split; [simpl; lia|].
          intros [?|[[= ->]|(id' & pr & [= <-] & Hpr)]];
            [discriminate | discriminate | congruence].
        * destruct (pr_comment_result _ _ _); simpl;
            (eexists; split; [now rewrite <- app_assoc|];
             split; [simpl; lia | reflexivity]).
    - destruct (commit_comment_result _ _ _); simpl;
        (eexists; split; [reflexivity|]; split; [simpl; lia | reflexivity]). }
  unfold report_status_by_comment. destruct check_names as [|s|l].
  - exists []. simpl. rewrite app_nil_r. repeat split; [lia|congruence].
  - destruct (Hcomment (status_comment state url (checks_of (CheckName s))
                          description)) as (new & ? & ? & ?).
    exists new. auto.
  - destruct (Hcomment (status_comment state url (checks_of (CheckNameList l))
                          description)) as (new & ? & ? & ?).
    exists new. auto.
Qed.

End Commenting.

(** *** On the scenarios *)

Import Scenarios.

Lemma comment_destination_witness :
  let forge := gitlab_answering None in
  let comment_forge := commenting_forge in
  comment "Builds are ready." commenter_on_merge_request
  = (inr tt,
     Commenting.mkWorld (Commenting.self commenter_on_merge_request)
       [inl (get_pr upstream 7);
        inr (pr_comment upstream 7 "Builds are ready.")]).
Proof.
  intros forge comment_forge.
  exact (proj1 (proj2 (comment_destination (forge := forge)
                         (comment_forge := comment_forge)
                         "Builds are ready." commenter_on_merge_request)
                  7 eq_refl ltac:(discriminate))
           merge_request eq_refl).
Defined.

Lemma one_comment_for_all_checks_witness :
  let forge := gitlab_answering None in
  let comment_forge := commenting_forge in
  comments_made
    (Commenting.calls
       (snd (report_status_by_comment success_state "https://ci/42"
               (CheckNameList ["rpm-build"; "testing-farm"; "srpm-build"])
               "All done." commenter_on_merge_request)))
  = [inr (pr_comment upstream 7
            (status_comment success_state "https://ci/42"
               ["rpm-build"; "testing-farm"; "srpm-build"] "All done."))].
Proof.
  intros forge comment_forge.
  destruct (proj2 (one_comment_for_all_checks (forge := forge)
                     (comment_forge := comment_forge) success_state
                     "https://ci/42" "All done."
                     (CheckNameList ["rpm-build"; "testing-farm"; "srpm-build"])
                     commenter_on_merge_request))
    as (new & Hcalls & _ & _).
  vm_compute. reflexivity.
Defined.

End CommentingFacts.

(** ** The chroots of a Copr build *)
Module CoprBuildsFacts.
Import CoprBuilds.
Section PerChroot.

Context {Status PackitId : Type}.

Local Abbreviation PerChroot := (@PerChroot Status PackitId).

Implicit Types (chroots : list string) (statuses : list Status)
  (new_id : PackitId) (d : PerChroot).

(** A list as SQLAlchemy hands it over: every element in a list of its
    own. *)
Local Abbreviation rows l := (map (fun x => [x]) l).

Lemma item_rows {A} (l : list A) (i : nat) (x : A) :
  l !! i = Some x -> item (rows l) i = inr [x].
Proof. intros Hx. unfold item. now rewrite list_lookup_fmap, Hx. Qed.

Lemma fill_chroots_spec chroots statuses new_id (count : nat) d :
  (count + List.length chroots <= List.length statuses)%nat ->
  exists d',
    fill_chroots (rows chroots) (rows statuses) new_id count d = inr d'
    /\ (forall c, c ∉ chroots ->
          status_per_chroot d' !! c = status_per_chroot d !! c
          /\ packit_id_per_chroot d' !! c = packit_id_per_chroot d !! c)
    /\ (forall i c, chroots !! i = Some c ->
          (forall j, (i < j)%nat -> chroots !! j <> Some c) ->
          status_per_chroot d' !! c = statuses !! (count + i)%nat)
    /\ (forall c, c ∈ chroots -> packit_id_per_chroot d' !! c = Some new_id).
Proof.
  revert count d. induction chroots as [|c0 chroots IH]; intros count d Hlen.
  - exists d. simpl. split; [reflexivity|]. split; [now intros|].
    split; [intros i c Hi; now rewrite lookup_nil in Hi|].
    intros c Hc. inversion Hc.
  - simpl in Hlen.
    destruct (statuses !! count) as [s0|] eqn:Es;
      [|apply lookup_ge_None in Es; lia].
    cbn [map fill_chroots first]. rewrite (item_rows _ _ _ Es). cbn [first].
    destruct (IH (S count)
                (mkPerChroot (<[c0 := s0]> (status_per_chroot d))
                             (<[c0 := new_id]> (packit_id_per_chroot d)))
                ltac:(lia)) as (d' & Hrun & Hout & Hin & Hid).
    exists d'. split; [exact Hrun|]. split; [|split].
    + intros c Hc. apply not_elem_of_cons in Hc as [Hne Hc].
      destruct (Hout c Hc) as [Hs Hp]. simpl in Hs, Hp.
      rewrite Hs, Hp. now rewrite !lookup_insert_ne.
    + intros [|i] c Hi Hlast.
      * simpl in Hi. injection Hi as ->.
        assert (Hc : c ∉ chroots).
        { intros (j & Hj)%list_elem_of_lookup.
          now apply (Hlast (S j) ltac:(lia)). }
        destruct (Hout c Hc) as [Hs _]. simpl in Hs.
        now rewrite Hs, lookup_insert_eq, Nat.add_0_r.
      * simpl in Hi. rewrite (Hin i c Hi).
        -- f_equal. lia.
        -- intros j Hj. apply (Hlast (S j)). lia.
    + intros c [-> | Hc]%elem_of_cons.
      * destruct (decide (c0 ∈ chroots)) as [Hc|Hc]; [now apply Hid|].
        destruct (Hout c0 Hc) as [_ Hp]. simpl in Hp.
        now rewrite Hp, lookup_insert_eq.
      * now apply Hid.
Qed.

(** X24: given a status for every chroot, the loop of
    [CoprBuildsList.get] fills both dictionaries: every chroot of the
    build is a key of both and nothing else is; each chroot has the
    status that stands at its last position in the targets, and every
    chroot has the one Packit id of the merged build. *)
Theorem per_chroot_filled chroots statuses new_id :
  (List.length chroots <= List.length statuses)%nat ->
  exists d,
    per_chroot (rows chroots) (rows statuses) new_id = inr d
    /\ (forall c, c ∉ chroots ->
          status_per_chroot d !! c = None
          /\ packit_id_per_chroot d !! c = None)
    /\ (forall i c, chroots !! i = Some c ->
          (forall j, (i < j)%nat -> chroots !! j <> Some c) ->
          status_per_chroot d !! c = statuses !! i)
    /\ (forall c, c ∈ chroots -> packit_id_per_chroot d !! c = Some new_id).
Proof.
  intros Hlen. unfold per_chroot.
  destruct (fill_chroots_spec chroots statuses new_id 0 (mkPerChroot ∅ ∅)
              ltac:(simpl; lia)) as (d & Hrun & Hout & Hin & Hid).
  exists d. split; [exact Hrun|]. split; [|split; [exact Hin | exact Hid]].
  intros c Hc. destruct (Hout c Hc) as [Hs Hp]. now rewrite Hs, Hp.
Qed.

Lemma fill_chroots_short chroots statuses new_id (count : nat) d :
  (count <= List.length statuses)%nat ->
  (List.length statuses < count + List.length chroots)%nat ->
  fill_chroots (rows chroots) (rows statuses) new_id count d
  = inl index_out_of_range.
Proof.
  revert count d. induction chroots as [|c0 chroots IH]; intros count d Hle Hlt;
    simpl in *; [lia|].
  destruct (statuses !! count) as [s0|] eqn:Es.
  - rewrite (item_rows _ _ _ Es). cbn [first].
    apply lookup_lt_Some in Es. apply IH; lia.
  - unfold item. now rewrite list_lookup_fmap, Es.
Qed.

(** X25: when the build has fewer statuses than chroots, the loop ends
    in an [IndexError], whatever the chroots are. *)
Theorem per_chroot_short_of_status chroots statuses new_id :
  (List.length statuses < List.length chroots)%nat ->
  per_chroot (rows chroots) (rows statuses) new_id = inl index_out_of_range.
Proof.
  intros Hlt. apply fill_chroots_short; simpl; lia.
Qed.

End PerChroot.

Lemma per_chroot_filled_witness :
  exists d : @CoprBuilds.PerChroot string Z,
    per_chroot [["fedora-33-x86_64"]; ["fedora-rawhide-x86_64"]]
               [["success"]; ["pending"]] 4321%Z
    = inr d
    /\ status_per_chroot d !! "fedora-rawhide-x86_64" = Some "pending"
    /\ packit_id_per_chroot d !! "fedora-33-x86_64" = Some 4321%Z.
Proof.
  destruct (per_chroot_filled
              ["fedora-33-x86_64"; "fedora-rawhide-x86_64"]
              ["success"; "pending"] 4321%Z ltac:(simpl; lia))
    as (d & Hrun & _ & Hstatus & Hid).
  exists d. split; [exact Hrun|]. split.
  - apply (Hstatus 1%nat); [reflexivity|].
    intros [|[|[|j]]] Hj; try lia; discriminate.
  - apply Hid. now left.
Defined.

Lemma per_chroot_short_of_status_witness :
  per_chroot (Status := string) (PackitId := Z)
             [["fedora-33-x86_64"]; ["fedora-rawhide-x86_64"]]
             [["success"]] 4321%Z
  = inl index_out_of_range.
Proof.
  apply (per_chroot_short_of_status
           ["fedora-33-x86_64"; "fedora-rawhide-x86_64"] ["success"] 4321%Z).
  simpl. lia.
Defined.

End CoprBuildsFacts.
